(** * Meta analytics service: cache, throttler, insight strategies, scoring

    A shallow embedding of [services/metaService.js] (class [MetaService])
    and of the two calls of [getAdInsights] in the route handlers, followed
    by the properties established about them.

    Conventions of the embedding.
    - [Date.now()] is an integer number of milliseconds ([Z]); every function
      that reads the clock takes the current time as an argument.
    - JavaScript numbers that come from [parseFloat]/[parseInt] of the
      decimal strings of the upstream API are exact rationals ([Q]); the
      rounding of binary64 arithmetic is not modelled.  [undefined] fields
      are [None], and the idiom [x || 0] is [num_or0].
    - A [Map] or a plain object used as a dictionary is a [gmap string _].
    - [async] code is a transition system whose states are the points at
      which the drain loop is suspended on an [await]. *)

From Stdlib Require Import ZArith QArith Qround Lia Lqa List Bool Ascii String.
From stdpp Require Import gmap strings list fin_maps pretty.

Open Scope Z_scope.

(* ===================================================================== *)
(** ** Cache store (metaService.js, lines 15-16, 29-34, 54-63, 80-109)   *)
(* ===================================================================== *)

Module Cache.

(** The result of [Date.now() + duration]: a number, or [NaN] when
    [duration] is [undefined]. *)
Inductive jsnum : Type :=
  | NaN
  | Num (z : Z).

(** [Date.now() + duration]. *)
Definition add_duration (now : Z) (duration : option Z) : jsnum :=
  match duration with
  | Some d => Num (now + d)
  | None => NaN
  end.

(** Truthiness of a number: [NaN] and [0] are falsy. *)
Definition truthy (n : jsnum) : bool :=
  match n with
  | NaN => false
  | Num z => negb (z =? 0)
  end.

(** [a < b] with a numeric left operand; any comparison with [NaN] is false. *)
Definition lt_num (a : Z) (b : jsnum) : bool :=
  match b with
  | NaN => false
  | Num z => a <? z
  end.

(** [a >= b]. *)
Definition ge_num (a : Z) (b : jsnum) : bool :=
  match b with
  | NaN => false
  | Num z => z <=? a
  end.

(** The first object assigned to [this.cacheDurations] (lines 29-34). *)
Definition cacheDurations_first : gmap string Z :=
  <["default" := 120000]>
  (<["ad_insights" := 600000]>
  (<["account" := 300000]>
  (<["ads_list" := 300000]> ∅))).

(** The second object assigned to [this.cacheDurations] (lines 55-63). *)
Definition cacheDurations_second : gmap string Z :=
  <["account" := 10 * 60 * 1000]>
  (<["ads" := 10 * 60 * 1000]>
  (<["campaigns" := 10 * 60 * 1000]>
  (<["adsets" := 10 * 60 * 1000]>
  (<["todaySpend" := 2 * 60 * 1000]>
  (<["campaignInsights" := 5 * 60 * 1000]>
  (<["creatives" := 30 * 60 * 1000]> ∅)))))).

(** The constructor assigns the field twice; the later assignment is the
    value every method sees. *)
Definition constructor_cacheDurations : gmap string Z :=
  let durations := cacheDurations_first in
  let durations := cacheDurations_second in
  durations.

Section Store.

Context {V : Type}.

(** The part of the service object the cache methods touch.  [cacheFile]
    is the content last written by [saveCacheToFile]. *)
Record state : Type := mkState {
  cache : gmap string V;
  cacheExpiry : gmap string jsnum;
  cacheDurations : gmap string Z;
  cacheFile : option (gmap string V * gmap string jsnum)
}.

(** State after the constructor, with no cache file on disk. *)
Definition initial : state :=
  mkState ∅ ∅ constructor_cacheDurations None.

(** [a || b] on table entries: [a] when it is a non-zero number. *)
Definition or_default (a b : option Z) : option Z :=
  match a with
  | Some d => if d =? 0 then b else Some d
  | None => b
  end.

(** [this.cacheDurations[cacheType] || this.cacheDurations.default]. *)
Definition duration_of (st : state) (cacheType : string) : option Z :=
  or_default (cacheDurations st !! cacheType) (cacheDurations st !! "default").

Definition saveCacheToFile (st : state) : state :=
  mkState (cache st) (cacheExpiry st) (cacheDurations st)
          (Some (cache st, cacheExpiry st)).

(** [getFromCache(cacheKey)] at time [now]: the returned value ([None] for
    [null]) and the state after the lazy eviction. *)
Definition getFromCache (now : Z) (st : state) (cacheKey : string)
  : option V * state :=
  match cacheExpiry st !! cacheKey with
  | Some expiry =>
      if truthy expiry && lt_num now expiry then (cache st !! cacheKey, st)
      else if truthy expiry && ge_num now expiry then
        (None, mkState (delete cacheKey (cache st))
                       (delete cacheKey (cacheExpiry st))
                       (cacheDurations st) (cacheFile st))
      else (None, st)
  | None => (None, st)
  end.

(** [setCache(cacheKey, data, cacheType)] at time [now]. *)
Definition setCache (now : Z) (st : state) (cacheKey : string) (data : V)
    (cacheType : string) : state :=
  let duration := duration_of st cacheType in
  let expiry := add_duration now duration in
  let st' := mkState (<[cacheKey := data]> (cache st))
                     (<[cacheKey := expiry]> (cacheExpiry st))
                     (cacheDurations st) (cacheFile st) in
  if (Z.of_nat (size (cache st')) mod 5 =? 0) then saveCacheToFile st'
  else st'.

(** [cleanExpiredCache()]. *)
Definition cleanExpiredCache (now : Z) (st : state) : state :=
  let dead := filter (fun kv => ge_num now (snd kv) = true) (cacheExpiry st) in
  mkState (filter (fun kv => dead !! fst kv = None) (cache st))
          (filter (fun kv => dead !! fst kv = None) (cacheExpiry st))
          (cacheDurations st) (cacheFile st).

End Store.

Arguments state : clear implicits.

End Cache.

(* ===================================================================== *)
(** ** JavaScript helpers shared by the numeric code                     *)
(* ===================================================================== *)

Module Js.

Local Open Scope Q_scope.

(** [parseFloat(x || 0)] for a field holding a decimal string or nothing. *)
Definition num_or0 (x : option Q) : Q :=
  match x with
  | Some q => q
  | None => 0
  end.

(** Truncation toward zero, as [parseInt] does on a decimal string. *)
Definition trunc (q : Q) : Z :=
  if Qle_bool 0 q then Qfloor q else Qceiling q.

(** [parseInt(x || 0)]. *)
Definition int_or0 (x : option Q) : Z := trunc (num_or0 x).

(** [Math.round]: the nearest integer, ties toward plus infinity. *)
Definition Math_round (q : Q) : Z := Qfloor (q + (1 # 2)).

(** [Math.min] on two numbers. *)
Definition Math_min (a b : Q) : Q := if Qle_bool a b then a else b.

(** [Math.max] on two numbers. *)
Definition Math_max (a b : Q) : Q := if Qle_bool a b then b else a.

(** [x.toFixed(2)] read back as a number: the nearest multiple of 1/100,
    ties away from zero. *)
Definition toFixed2 (q : Q) : Q :=
  if Qle_bool 0 q then Qfloor (q * 100 + (1 # 2)) # 100
  else - (Qfloor ((- q) * 100 + (1 # 2)) # 100).

(** [a === b], [a >= b], [a > b], [a <= b] on numbers. *)
Definition eqb (a b : Q) : bool := Qeq_bool a b.
Definition geb (a b : Q) : bool := Qle_bool b a.
Definition gtb (a b : Q) : bool := negb (Qle_bool a b).
Definition leb (a b : Q) : bool := Qle_bool a b.

(** [c.toLowerCase()] on the ASCII range. *)
Definition lower_ascii (c : ascii) : ascii :=
  let n := nat_of_ascii c in
  if (Nat.leb 65 n && Nat.leb n 90)%bool then ascii_of_nat (n + 32) else c.

Fixpoint toLowerCase (s : string) : string :=
  match s with
  | EmptyString => EmptyString
  | String c s' => String (lower_ascii c) (toLowerCase s')
  end.

(** [s.includes(sub)]. *)
Fixpoint includes (s sub : string) : bool :=
  if String.prefix sub s then true
  else match s with
       | EmptyString => false
       | String _ s' => includes s' sub
       end.

(** One entry of an [actions] or [action_values] list. *)
Record action : Type := mkAction {
  action_type : string;
  value : option Q
}.

(** An insight record of the upstream API, also the shape of the [metrics]
    object built from it.  Each numeric field holds the number its decimal
    string denotes; fields that the code only copies ([frequency], [reach],
    [cost_per_action_type]) are left out. *)
Record insights : Type := mkInsights {
  spend : option Q;
  impressions : option Q;
  clicks : option Q;
  ctr : option Q;
  cpm : option Q;
  cpc : option Q;
  actions : option (list action);
  action_values : option (list action);
  date_start : option string;
  date_stop : option string
}.

(** The empty object [{}]. *)
Definition empty_insights : insights :=
  mkInsights None None None None None None None None None None.

(** Truthiness of a string-valued field: [undefined] and the empty string
    are falsy. *)
Definition truthy_str (x : option string) : bool :=
  match x with
  | Some s => negb (String.eqb s EmptyString)
  | None => false
  end.

(** [a === b] on string-valued fields. *)
Definition str_eq (a b : option string) : bool :=
  match a, b with
  | Some x, Some y => String.eqb x y
  | None, None => true
  | _, _ => false
  end.

End Js.

(* ===================================================================== *)
(** ** Performance score (metaService.js, lines 1538-1684)               *)
(* ===================================================================== *)

Module Scoring.

Import Js.
Local Open Scope Q_scope.

(** The predicate of the [filter] in [calculateROASScore]. *)
Definition is_purchase_value (a : action) : bool :=
  let actionType := toLowerCase (action_type a) in
  ((includes actionType "purchase" ||
    String.eqb actionType "conversion" ||
    includes actionType "sale" ||
    includes actionType "order" ||
    includes actionType "checkout") &&
   negb (includes actionType "view_content") &&
   negb (includes actionType "add_to_cart") &&
   negb (includes actionType "initiate_checkout"))%bool.

(** [[...new Set(l)]]: the first occurrence of every number, in order. *)
Fixpoint unique_from (seen l : list Q) : list Q :=
  match l with
  | [] => []
  | x :: r =>
      if existsb (Qeq_bool x) seen then unique_from seen r
      else x :: unique_from (x :: seen) r
  end.

Definition unique (l : list Q) : list Q := unique_from [] l.

(** [Math.max(x, ...r)] on a non-empty argument list. *)
Definition Math_max_of (x : Q) (r : list Q) : Q := fold_left Math_max r x.

(** [totalConversionValue] as computed inside [calculateROASScore]. *)
Definition totalConversionValue (ins : insights) : Q :=
  let actionValues := default [] (action_values ins) in
  let purchaseActionValues := List.filter is_purchase_value actionValues in
  if (0 <? Z.of_nat (length purchaseActionValues))%Z then
    match unique (map (fun a => num_or0 (value a)) purchaseActionValues) with
    | x :: r => Math_max_of x r
    | [] => 0 (* not reached: the mapped list is non-empty *)
    end
  else 0.

(** The [if]/[else if] chain that ends [calculateROASScore]. *)
Definition roas_chain (roas : Q) : Z :=
  if geb roas 4.0 then 100
  else if geb roas 3.0 then 90
  else if geb roas 2.5 then 80
  else if geb roas 2.0 then 70
  else if geb roas 1.5 then 60
  else if geb roas 1.0 then 50
  else if geb roas 0.5 then 30
  else if gtb roas 0 then 10
  else 0.

Definition calculateROASScore (ins : insights) (spend : Q) : Z :=
  if eqb spend 0 then 0%Z
  else
    let roas := totalConversionValue ins / spend in
    roas_chain roas.

Definition calculateCTRScore (ctr : Q) : Z :=
  if geb ctr 3.0 then 100
  else if geb ctr 2.0 then 90
  else if geb ctr 1.5 then 80
  else if geb ctr 1.0 then 70
  else if geb ctr 0.5 then 60
  else if geb ctr 0.3 then 50
  else if geb ctr 0.1 then 30
  else if gtb ctr 0 then 10
  else 0.

Definition calculateClickScore (clicks impressions : Z) : Z :=
  if (impressions =? 0)%Z then 0%Z
  else
    let clickRate := (inject_Z clicks / inject_Z impressions) * 100 in
    let volume : option Z :=
      if (1000 <=? clicks)%Z then Some 100%Z
      else if (500 <=? clicks)%Z then Some 90%Z
      else if (200 <=? clicks)%Z then Some 80%Z
      else if (100 <=? clicks)%Z then Some 70%Z
      else if (50 <=? clicks)%Z then Some 60%Z
      else if (20 <=? clicks)%Z then Some 50%Z
      else if (10 <=? clicks)%Z then Some 40%Z
      else if (5 <=? clicks)%Z then Some 30%Z
      else if (1 <=? clicks)%Z then Some 20%Z
      else None in
    match volume with
    | None => 0%Z
    | Some volumeScore =>
        let rateScore := Math_min (clickRate * 20) 100 in
        Math_round ((rateScore * 0.7) + (inject_Z volumeScore * 0.3))
    end.

Definition calculateCPMScore (cpm : Q) : Z :=
  if leb cpm 5 then 100
  else if leb cpm 10 then 90
  else if leb cpm 15 then 80
  else if leb cpm 20 then 70
  else if leb cpm 30 then 60
  else if leb cpm 50 then 50
  else if leb cpm 75 then 30
  else if leb cpm 100 then 10
  else 0.

Definition calculateCPCScore (cpc : Q) (clicks : Z) : Z :=
  if (clicks =? 0)%Z then 0%Z
  else if leb cpc 0.5 then 100
  else if leb cpc 1.0 then 90
  else if leb cpc 1.5 then 80
  else if leb cpc 2.0 then 70
  else if leb cpc 3.0 then 60
  else if leb cpc 5.0 then 50
  else if leb cpc 8.0 then 30
  else if leb cpc 12.0 then 10
  else 0.

Definition calculatePerformanceScore (ins : insights) : Z :=
  let spend := num_or0 (spend ins) in
  let impressions := int_or0 (impressions ins) in
  let clicks := int_or0 (clicks ins) in
  let ctr := num_or0 (ctr ins) in
  let cpm := num_or0 (cpm ins) in
  let cpc := num_or0 (cpc ins) in
  if (eqb spend 0 || (impressions =? 0)%Z)%bool then 0%Z
  else
    let s_roas := calculateROASScore ins spend in
    let s_ctr := calculateCTRScore ctr in
    let s_clicks := calculateClickScore clicks impressions in
    let s_cpm := calculateCPMScore cpm in
    let s_cpc := calculateCPCScore cpc clicks in
    let weightedScore :=
      (inject_Z s_roas * 0.40) +
      (inject_Z s_ctr * 0.25) +
      (inject_Z s_clicks * 0.20) +
      (inject_Z s_cpm * 0.08) +
      (inject_Z s_cpc * 0.07) in
    Math_round (Math_min weightedScore 100).

End Scoring.

(* ===================================================================== *)
(** ** Insight resolution (metaService.js, lines 665-794, 978-1111,
       1743-1853)                                                        *)
(* ===================================================================== *)

Module Insights.

Import Js.
Local Open Scope string_scope.
Local Open Scope Z_scope.

Record timeRange : Type := mkRange { since : string; until : string }.

(** The local calendar dates [getDateRange] derives from [new Date()]. *)
Record calendar : Type := mkCalendar {
  today : string;
  yesterday : string;
  days_ago_7 : string;
  days_ago_30 : string;
  days_ago_90 : string
}.

(** [getDateRange(range)]. *)
Definition getDateRange (cal : calendar) (range : string) : timeRange :=
  let until := today cal in
  if (String.eqb range "today" || String.eqb range "24h" ||
      String.eqb range "1d")%bool then mkRange until until
  else if String.eqb range "yesterday" then
    mkRange (yesterday cal) (yesterday cal)
  else if String.eqb range "7d" then mkRange (days_ago_7 cal) until
  else if String.eqb range "30d" then mkRange (days_ago_30 cal) until
  else if String.eqb range "90d" then mkRange (days_ago_90 cal) until
  else mkRange (today cal) until.

(** Query parameters of one request. *)
Record params : Type := mkParams {
  p_fields : string;
  p_level : option string;
  p_limit : option Z;
  p_time_range : option timeRange;
  p_date_preset : option string;
  p_attribution_window : option string;
  p_t : option string
}.

Record approach : Type := mkApproach {
  a_name : string;
  a_params : params
}.

(** What [makeRequest] resolves to: the body of the upstream answer. *)
Record response : Type := mkResponse {
  r_data : option (list insights)
}.

(** The object returned by [processAdInsightsData]. *)
Record processed : Type := mkProcessed {
  metrics : insights;
  performance_score : Z;
  pr_date_start : option string;
  pr_date_stop : option string
}.

(** What the service cache may hold under a key: a raw answer stored by
    [executeRequest], or a processed record stored by [getAdInsights]. *)
Inductive cached : Type :=
  | CResponse (r : response)
  | CProcessed (p : processed).

(** [actions.find(action => action.action_type === 'link_click')]. *)
Definition find_link_click (acts : list action) : option action :=
  List.find (fun a => String.eqb (action_type a) "link_click") acts.

(** [processAdInsightsData(insightData)]. *)
Definition processAdInsightsData (insightData : insights) : processed :=
  let acts := default [] (actions insightData) in
  let linkClicks :=
    match find_link_click acts with
    | Some a => int_or0 (value a)
    | None => 0
    end in
  let m := mkInsights
    (Some (num_or0 (spend insightData)))
    (Some (inject_Z (int_or0 (impressions insightData))))
    (Some (inject_Z linkClicks))
    (Some (num_or0 (ctr insightData)))
    (Some (num_or0 (cpm insightData)))
    (Some (num_or0 (cpc insightData)))
    (Some acts)
    (Some (default [] (action_values insightData)))
    None None in
  mkProcessed m (Scoring.calculatePerformanceScore m)
              (date_start insightData) (date_stop insightData).

(** The date test of [getAdSpecificInsights] and of the batch
    [getAdInsights]: both dates present, equal to each other and to
    [timeRange.since]. *)
Definition isDateSpecific (data : insights) (range : timeRange) : bool :=
  truthy_str (date_start data) && truthy_str (date_stop data) &&
  str_eq (date_start data) (date_stop data) &&
  str_eq (date_start data) (Some (since range)).


Definition fields_per_ad : string :=
  "actions,action_values,spend,date_start,date_stop,impressions,clicks,cpm,cpc,ctr,frequency,reach,cost_per_action_type".

Definition fields_batch : string :=
  "ad_id,ad_name,impressions,clicks,spend,cpm,cpc,ctr,frequency,reach,actions,action_values,cost_per_action_type,date_start,date_stop".


(** The date preset used by the per-ad [getAdInsights]. *)
Definition preset_per_ad (dateRange : string) : string :=
  if String.eqb dateRange "today" then "today"
  else if String.eqb dateRange "yesterday" then "yesterday"
  else if String.eqb dateRange "7d" then "last_7d"
  else if String.eqb dateRange "30d" then "last_30d"
  else "last_7d".

(** The three variants of the per-ad [getAdInsights]. *)
Definition approaches_per_ad (dateRange : string) : list approach :=
  [ mkApproach "date_preset_today_1d_click"
      (mkParams fields_per_ad None None None (Some (preset_per_ad dateRange))
                (Some "1d_click") None);
    mkApproach "date_preset_today_7d_click"
      (mkParams fields_per_ad None None None (Some (preset_per_ad dateRange))
                (Some "7d_click") None);
    mkApproach "date_preset_today_1d_view"
      (mkParams fields_per_ad None None None (Some (preset_per_ad dateRange))
                (Some "1d_view") None) ].

(** The four variants of the batch [getAdInsights]. *)
Definition approaches_batch (range : timeRange) (dateRange : string)
    (limit : Z) : list approach :=
  [ mkApproach "direct_insights"
      (mkParams fields_batch (Some "ad") (Some limit) (Some range) None
                (Some "7d_click") None);
    mkApproach "direct_insights_1d_view"
      (mkParams fields_batch (Some "ad") (Some limit) (Some range) None
                (Some "1d_view") None);
    mkApproach "direct_insights_7d_view"
      (mkParams fields_batch (Some "ad") (Some limit) (Some range) None
                (Some "7d_view") None);
    mkApproach "direct_insights_preset"
      (mkParams fields_batch (Some "ad") (Some limit) None
         (Some (if String.eqb dateRange "today" then "today"
                else if String.eqb dateRange "yesterday" then "yesterday"
                else if String.eqb dateRange "7d" then "last_7d"
                else "last_30d"))
         (Some "1d_click") None) ].

(** [{ ...approach.params, _t }]. *)
Definition with_t (p : params) (t : option string) : params :=
  mkParams (p_fields p) (p_level p) (p_limit p) (p_time_range p)
           (p_date_preset p) (p_attribution_window p) t.

Section Upstream.

(** [makeRequest(endpoint, params, cacheType)] as seen by one run of a
    strategy loop: the awaited result, either the error the promise is
    rejected with (its message) or the answer. *)
Variable makeRequest : string -> params -> string -> string + response.



(** The [for] loop of the per-ad [getAdInsights].  A variant is accepted
    as soon as its answer has a [data] field; [isDateSpecific] is computed
    by the source for the log line only. *)
Fixpoint getAdInsights_loop (endpoint : string) (_t : option string)
    (approaches : list approach)
  : list string * option (string * processed) :=
  match approaches with
  | [] => ([], None)
  | a :: rest =>
      let next :=
        let '(tried, res) := getAdInsights_loop endpoint _t rest in
        (a_name a :: tried, res) in
      let p := if truthy_str _t then with_t (a_params a) _t
               else a_params a in
      match makeRequest endpoint p "ad_insights" with
      | inr resp =>
          match r_data resp with
          | Some records =>
              let data := default empty_insights (head records) in
              ([a_name a], Some (a_name a, processAdInsightsData data))
          | None => next
          end
      | inl _ => next
      end
  end.

(** The per-ad [getAdInsights(adId, dateRange = 'today', _t)], the second
    method of that name in the class.  [adId] is the text the template
    literals make of the first argument.  [now] is the clock at the cache
    read and [now'] the clock at the cache write.  The result is the list of
    variants requested, the returned value ([None] for [null]) and the
    cache afterwards. *)
Definition getAdInsights (now now' : Z) (st : Cache.state cached)
    (adId : string) (dateRange_arg : option string) (_t : option string)
  : list string * option cached * Cache.state cached :=
  let dateRange := default "today" dateRange_arg in
  let cacheKey := "ad_insights_" ++ adId ++ "_" ++ dateRange in
  let run (st1 : Cache.state cached) :=
    let endpoint := adId ++ "/insights" in
    match getAdInsights_loop endpoint _t (approaches_per_ad dateRange) with
    | (tried, Some (_, processedData)) =>
        (tried, Some (CProcessed processedData),
         Cache.setCache now' st1 cacheKey (CProcessed processedData) "300")
    | (tried, None) => (tried, None, st1)
    end in
  if negb (truthy_str _t) then
    match Cache.getFromCache now st cacheKey with
    | (Some cachedData, st1) => ([], Some cachedData, st1)
    | (None, st1) => run st1
    end
  else run st.

(** The [for] loop of the batch [getAdInsights], the first method of that
    name.  When the first record is date specific the body calls
    [processAdInsightsData] on the whole array, which yields a single
    object, and then [.map] on that object: the [TypeError] is caught by
    the [catch] of the loop body and the next variant is tried.  The loop
    therefore always runs to the end. *)
Fixpoint getAdInsights_batch_loop (endpoint : string) (range : timeRange)
    (approaches : list approach)
  : list string * option (string * list insights) :=
  match approaches with
  | [] => ([], None)
  | a :: rest =>
      let next :=
        let '(tried, res) := getAdInsights_batch_loop endpoint range rest in
        (a_name a :: tried, res) in
      match makeRequest endpoint (a_params a)
              ("ad_insights_" ++ a_name a) with
      | inr resp =>
          match r_data resp with
          | Some (firstAd :: _) =>
              if isDateSpecific firstAd range then next (* TypeError, caught *)
              else next
          | _ => next
          end
      | inl _ => next
      end
  end.

End Upstream.

End Insights.

(* ===================================================================== *)
(** ** Results of the account spend query (metaService.js, lines 401-423) *)
(* ===================================================================== *)

Module SpendData.

Import Js.

(** The predicate of the [filter] in [getResultsData]. *)
Definition is_purchase_action (a : action) : bool :=
  String.eqb (action_type a) "purchase" ||
  String.eqb (action_type a) "onsite_web_purchase" ||
  String.eqb (action_type a) "onsite_web_app_purchase" ||
  String.eqb (action_type a) "omni_purchase" ||
  String.eqb (action_type a) "web_in_store_purchase".

(** [Math.max(...xs, 0)] on integers. *)
Definition Math_max_with0 (xs : list Z) : Z := fold_right Z.max 0 xs.

(** [getResultsData(data)]: the pair [(results, costOfResults)]. *)
Definition getResultsData (data : insights) : Z * Q :=
  match actions data with
  | None => (0, 0%Q)
  | Some acts =>
      let purchaseActions := List.filter is_purchase_action acts in
      let results :=
        Math_max_with0 (map (fun a => int_or0 (value a)) purchaseActions) in
      let costOfResults :=
        if 0 <? results then (num_or0 (spend data) / inject_Z results)%Q
        else 0%Q in
      (results, costOfResults)
  end.

End SpendData.

(* ===================================================================== *)
(** ** Enrichment of the ads list (metaService.js, lines 1245-1423)      *)
(* ===================================================================== *)

Module AdsData.

Import Js.

(** An ad as listed by the upstream API; [ad_insights] is
    [ad.insights.data].  The creative is left out. *)
Record ad : Type := mkAd {
  ad_id : string;
  ad_name : option string;
  ad_insights : option (list insights)
}.

(** The ad returned by [processAdsData]. *)
Record enriched : Type := mkEnriched {
  e_ad : ad;
  e_metrics : insights;
  e_performance_score : Z
}.

(** The name test of the first [filter]: true when the entry is dropped. *)
Definition looks_like_adset (a : ad) : bool :=
  let name := toLowerCase (default EmptyString (ad_name a)) in
  includes name "| static |" ||
  includes name "| dynamic |" ||
  includes name "| video |" ||
  includes name "adset" ||
  includes name "campaign" ||
  ((Z.of_nat (String.length name) <? 10) && negb (includes name "ad")).

(** [ad.insights?.data?.[0] || {}]. *)
Definition first_insights (a : ad) : insights :=
  default empty_insights (head (default [] (ad_insights a))).

(** [action.action_type && action.action_type.includes('purchase')]. *)
Definition mentions_purchase (a : action) : bool :=
  includes (action_type a) "purchase".

(** The predicate kept by the two filters that strip purchase entries. *)
Definition not_purchase (a : action) : bool :=
  negb (includes (action_type a) "purchase") &&
  negb (includes (action_type a) "omni_purchase").

(** [list.reduce((sum, x) => sum + f(x), 0)] on numbers. *)
Definition sumQ {A : Type} (f : A -> Q) (l : list A) : Q :=
  fold_left (fun sum x => (sum + f x)%Q) l 0%Q.

Definition sumZ {A : Type} (f : A -> Z) (l : list A) : Z :=
  fold_left (fun sum x => sum + f x) l 0.

(** The three totals computed when [accountConversionData] is given. *)
Record totals : Type := mkTotals {
  totalAdSpend : Q;
  totalAccountConversions : Z;
  totalAccountConversionValue : Q
}.

Definition compute_totals (actualAds : list ad)
    (accountConversionData : insights) : totals :=
  let totalAdSpend :=
    sumQ (fun a => num_or0 (spend (first_insights a))) actualAds in
  let totalAccountConversions :=
    match actions accountConversionData with
    | Some acts =>
        sumZ (fun a => int_or0 (value a)) (List.filter mentions_purchase acts)
    | None => 0
    end in
  let totalAccountConversionValue :=
    match action_values accountConversionData with
    | Some vals =>
        let purchaseValues := List.filter mentions_purchase vals in
        match Scoring.unique
                (map (fun a => num_or0 (value a)) purchaseValues) with
        | x :: r => Scoring.Math_max_of x r
        | [] => 0%Q
        end
    | None => 0%Q
    end in
  let totalAccountConversionValue :=
    if Js.eqb totalAccountConversionValue 0 && (0 <? totalAccountConversions)
    then (inject_Z totalAccountConversions * 50)%Q
    else totalAccountConversionValue in
  mkTotals totalAdSpend totalAccountConversions totalAccountConversionValue.

(** The body of the final [map] for one ad: the purchase entries appended
    to [actions] and to [action_values]. *)
Definition allocate (tot : option totals) (ins : insights)
  : list action * list action :=
  let proportionalActions :=
    List.filter not_purchase (default [] (actions ins)) in
  let proportionalActionValues :=
    List.filter not_purchase (default [] (action_values ins)) in
  match tot with
  | Some t =>
      if Js.gtb (totalAdSpend t) 0 && Js.gtb (num_or0 (spend ins)) 0 then
        let adSpend := num_or0 (spend ins) in
        let adSpendRatio := (adSpend / totalAdSpend t)%Q in
        let adConversions :=
          Math_round (inject_Z (totalAccountConversions t) * adSpendRatio) in
        let adConversionValue :=
          (totalAccountConversionValue t * adSpendRatio)%Q in
        if 0 <? adConversions then
          (proportionalActions ++
             [mkAction "purchase" (Some (inject_Z adConversions))],
           if Js.gtb adConversionValue 0 then
             proportionalActionValues ++
               [mkAction "purchase" (Some (toFixed2 adConversionValue))]
           else proportionalActionValues)
        else (proportionalActions, proportionalActionValues)
      else (proportionalActions, proportionalActionValues)
  | None => (proportionalActions, proportionalActionValues)
  end.

(** [processAdsData(ads, accountConversionData = null)]. *)
Definition processAdsData (ads : list ad)
    (accountConversionData : option insights) : list enriched :=
  let actualAds := List.filter (fun a => negb (looks_like_adset a)) ads in
  let tot := option_map (compute_totals actualAds) accountConversionData in
  map (fun a =>
         let ins := first_insights a in
         let '(acts, vals) := allocate tot ins in
         mkEnriched a
           (mkInsights
              (Some (num_or0 (spend ins)))
              (Some (inject_Z (int_or0 (impressions ins))))
              (Some (inject_Z (int_or0 (clicks ins))))
              (Some (num_or0 (ctr ins)))
              (Some (num_or0 (cpm ins)))
              (Some (num_or0 (cpc ins)))
              (Some acts) (Some vals) None None)
           (Scoring.calculatePerformanceScore ins))
      actualAds.

End AdsData.

(* ===================================================================== *)
(** ** Request queue and upstream client (metaService.js, lines 18-23,
       74-78, 197-280)                                                   *)
(* ===================================================================== *)

Module Throttle.

Import Js.
Local Open Scope string_scope.
Local Open Scope Z_scope.

(** [this.requestDelay], set in the constructor. *)
Definition requestDelay : Z := 25.

(** One element of [this.requestQueue].  [caller] names the pair
    [resolve]/[reject] of the promise that [makeRequest] returned. *)
Record request : Type := mkRequest {
  endpoint : string;
  rq_params : Insights.params;
  cacheType : string;
  caller : nat
}.

(** What [axios.get] rejects with: [error.response.status] (absent when no
    answer arrived), [error.response.data.error.message], [error.message]. *)
Record axios_error : Type := mkAxiosError {
  ax_status : option Z;
  ax_api_message : option string;
  ax_message : string
}.

(** An [Error] object as the drain loop sees it: its message and
    [error.response.status] when it has a [response] property. *)
Record js_error : Type := mkError {
  message : string;
  response_status : option Z
}.

(** How a caller's promise is settled. *)
Inductive settlement : Type :=
  | Resolved (v : Insights.cached)
  | Rejected (e : js_error).

Definition dquote : string := String (ascii_of_nat 34) EmptyString.

(** [JSON.stringify(timeRange)] for dates free of characters to escape. *)
Definition json_range (r : Insights.timeRange) : string :=
  "{" ++ dquote ++ "since" ++ dquote ++ ":" ++
  dquote ++ Insights.since r ++ dquote ++ "," ++
  dquote ++ "until" ++ dquote ++ ":" ++
  dquote ++ Insights.until r ++ dquote ++ "}".

Definition entry {A : Type} (key : string) (show : A -> string)
    (x : option A) : list (string * string) :=
  match x with
  | Some v => [(key, show v)]
  | None => []
  end.

(** The own keys of a parameter object in sorted order, with the text of
    their values. *)
Definition sorted_entries (p : Insights.params) : list (string * string) :=
  (entry "_t" id (Insights.p_t p) ++
   entry "attribution_window" id (Insights.p_attribution_window p) ++
   entry "date_preset" id (Insights.p_date_preset p) ++
   [("fields", Insights.p_fields p)] ++
   entry "level" id (Insights.p_level p) ++
   entry "limit" (fun z : Z => pretty z) (Insights.p_limit p) ++
   entry "time_range" json_range (Insights.p_time_range p))%list.

(** [parts.join('&')]. *)
Definition join_amp (parts : list string) : string :=
  match parts with
  | [] => EmptyString
  | x :: r => fold_left (fun acc y => acc ++ "&" ++ y) r x
  end.

(** [getCacheKey(endpoint, params)]. *)
Definition getCacheKey (endpoint : string) (p : Insights.params) : string :=
  let paramString :=
    join_amp (map (fun kv => fst kv ++ "=" ++ snd kv) (sorted_entries p)) in
  endpoint ++ "?" ++ paramString.

(** The [Error] built by the [catch] block of [executeRequest].  A fresh
    [Error] has no [response] property. *)
Definition wrap_error (e : axios_error) : js_error :=
  mkError ("Meta API request failed: " ++
           (if truthy_str (ax_api_message e)
            then default EmptyString (ax_api_message e)
            else ax_message e))
          None.

(** [error.response && error.response.status === 429]. *)
Definition is_rate_limited (e : js_error) : bool :=
  match response_status e with
  | Some s => s =? 429
  | None => false
  end.

(** A drain loop suspended on an [await]: on the throttle timer, on
    [executeRequest] (with the cached value when the cache answered), or on
    the back-off timer. *)
Inductive activation : Type :=
  | Throttling (r : request) (wake : Z)
  | Executing (r : request) (hit : option Insights.cached)
  | BackingOff (r : request) (wake : Z).

(** The fields of the service used by the queue, the suspended drain
    loops, the time of the last event, and three histories: the requests
    enqueued, the calls of [executeRequest] with their times, and the
    settlements delivered to callers (all oldest first). *)
Record state : Type := mkState {
  requestQueue : list request;
  isProcessingQueue : bool;
  lastRequestTime : Z;
  store : Cache.state Insights.cached;
  loops : list activation;
  clock : Z;
  enqueued : list request;
  dispatched : list (request * Z);
  delivered : list (nat * settlement)
}.

(** The service just after construction at time [t0]. *)
Definition initial (t0 : Z) : state :=
  mkState [] false 0 Cache.initial [] t0 [] [] [].

Definition set_queue (q : list request) (st : state) : state :=
  mkState q (isProcessingQueue st) (lastRequestTime st) (store st)
          (loops st) (clock st) (enqueued st) (dispatched st) (delivered st).

Definition set_processing (b : bool) (st : state) : state :=
  mkState (requestQueue st) b (lastRequestTime st) (store st)
          (loops st) (clock st) (enqueued st) (dispatched st) (delivered st).

Definition set_last (t : Z) (st : state) : state :=
  mkState (requestQueue st) (isProcessingQueue st) t (store st)
          (loops st) (clock st) (enqueued st) (dispatched st) (delivered st).

Definition set_store (c : Cache.state Insights.cached) (st : state) : state :=
  mkState (requestQueue st) (isProcessingQueue st) (lastRequestTime st) c
          (loops st) (clock st) (enqueued st) (dispatched st) (delivered st).

Definition set_loops (l : list activation) (st : state) : state :=
  mkState (requestQueue st) (isProcessingQueue st) (lastRequestTime st)
          (store st) l (clock st) (enqueued st) (dispatched st)
          (delivered st).

Definition set_clock (t : Z) (st : state) : state :=
  mkState (requestQueue st) (isProcessingQueue st) (lastRequestTime st)
          (store st) (loops st) t (enqueued st) (dispatched st)
          (delivered st).

Definition note_enqueued (r : request) (st : state) : state :=
  mkState (requestQueue st) (isProcessingQueue st) (lastRequestTime st)
          (store st) (loops st) (clock st) (enqueued st ++ [r])%list
          (dispatched st) (delivered st).

Definition note_dispatched (r : request) (t : Z) (st : state) : state :=
  mkState (requestQueue st) (isProcessingQueue st) (lastRequestTime st)
          (store st) (loops st) (clock st) (enqueued st)
          (dispatched st ++ [(r, t)])%list (delivered st).

Definition note_delivered (r : request) (s : settlement) (st : state)
  : state :=
  mkState (requestQueue st) (isProcessingQueue st) (lastRequestTime st)
          (store st) (loops st) (clock st) (enqueued st) (dispatched st)
          (delivered st ++ [(caller r, s)])%list.

(** The call [this.executeRequest(...)] at time [t], up to its first
    suspension: the cache is read unless [params._t] is set. *)
Definition dispatch (t : Z) (r : request) (st : state) : state * activation :=
  let cacheKey := getCacheKey (endpoint r) (rq_params r) in
  let st := note_dispatched r t st in
  if negb (truthy_str (Insights.p_t (rq_params r))) then
    match Cache.getFromCache t (store st) cacheKey with
    | (Some cachedData, c) => (set_store c st, Executing r (Some cachedData))
    | (None, c) => (set_store c st, Executing r None)
    end
  else (st, Executing r None).

(** The rest of [executeRequest] at time [t]: [o] is what [axios.get]
    produced when the cache did not answer. *)
Definition executeRequest_finish (t : Z) (r : request)
    (hit : option Insights.cached) (o : axios_error + Insights.response)
    (st : state) : (js_error + Insights.cached) * state :=
  match hit with
  | Some cachedData => (inr cachedData, st)
  | None =>
      match o with
      | inr body =>
          let cacheKey := getCacheKey (endpoint r) (rq_params r) in
          (inr (Insights.CResponse body),
           set_store (Cache.setCache t (store st) cacheKey
                        (Insights.CResponse body) (cacheType r)) st)
      | inl e => (inl (wrap_error e), st)
      end
  end.

(** The [while] test and the body of the drain loop up to its first
    [await], run at time [t]. *)
Definition loop_head (t : Z) (st : state) : state * option activation :=
  match requestQueue st with
  | [] => (set_processing false st, None)
  | request :: q =>
      let st := set_queue q st in
      let timeSinceLastRequest := t - lastRequestTime st in
      if timeSinceLastRequest <? requestDelay then
        (st, Some (Throttling request
                     (t + (requestDelay - timeSinceLastRequest))))
      else
        let '(st, a) := dispatch t request st in (st, Some a)
  end.

(** A suspended drain loop is resumed at time [t].  [None]: the awaited
    timer cannot have fired yet. *)
Definition resume (t : Z) (a : activation)
    (o : axios_error + Insights.response) (st : state)
  : option (state * option activation) :=
  match a with
  | Throttling r wake =>
      if wake <=? t then
        let '(st, a) := dispatch t r st in Some (st, Some a)
      else None
  | Executing r hit =>
      match executeRequest_finish t r hit o st with
      | (inr result, st) =>
          Some (loop_head t (set_last t (note_delivered r (Resolved result) st)))
      | (inl error, st) =>
          if is_rate_limited error then
            Some (st, Some (BackingOff r (t + 5000)))
          else
            Some (loop_head t (note_delivered r (Rejected error) st))
      end
  | BackingOff r wake =>
      if wake <=? t then
        Some (loop_head t (set_queue (r :: requestQueue st) st))
      else None
  end.

(** [processRequestQueue()] called at time [t]. *)
Definition processRequestQueue (t : Z) (st : state) : state :=
  if isProcessingQueue st || (length (requestQueue st) =? 0)%nat then st
  else
    let st := set_processing true st in
    match loop_head t st with
    | (st, Some a) => set_loops (loops st ++ [a])%list st
    | (st, None) => st
    end.

(** [makeRequest(endpoint, params, cacheType)] called at time [t]. *)
Definition makeRequest (t : Z) (r : request) (st : state) : state :=
  let st := note_enqueued r (set_queue (requestQueue st ++ [r])%list st) in
  processRequestQueue t st.

(** What can happen next: a caller enqueues a request, the timer awaited by
    the [i]-th suspended loop fires, or the [executeRequest] awaited by the
    [i]-th suspended loop completes. *)
Inductive event : Type :=
  | MakeRequest (r : request)
  | TimerFired (i : nat)
  | Settled (i : nat) (o : axios_error + Insights.response).

Definition put_back (i : nat) (a : option activation) (l : list activation)
  : list activation :=
  match a with
  | Some a' => <[i := a']> l
  | None => delete i l
  end.

Definition no_answer : axios_error + Insights.response :=
  inl (mkAxiosError None None EmptyString).

(** One event at time [t]; [None] when the event cannot happen in [st]. *)
Definition step (st : state) (te : Z * event) : option state :=
  let '(t, ev) := te in
  if t <? clock st then None
  else
    let st := set_clock t st in
    match ev with
    | MakeRequest r => Some (makeRequest t r st)
    | TimerFired i =>
        match loops st !! i with
        | Some (Executing _ _) => None
        | Some a =>
            match resume t a no_answer st with
            | Some (st', a') => Some (set_loops (put_back i a' (loops st')) st')
            | None => None
            end
        | None => None
        end
    | Settled i o =>
        match loops st !! i with
        | Some (Executing r hit) =>
            match resume t (Executing r hit) o st with
            | Some (st', a') => Some (set_loops (put_back i a' (loops st')) st')
            | None => None
            end
        | _ => None
        end
    end.

(** A sequence of timed events. *)
Fixpoint run (st : state) (evs : list (Z * event)) : option state :=
  match evs with
  | [] => Some st
  | te :: rest =>
      match step st te with
      | Some st' => run st' rest
      | None => None
      end
  end.

End Throttle.

(* ===================================================================== *)
(** ** The batch [getAdInsights] and its fallback (metaService.js,
       lines 665-857, 911-975)                                           *)
(* ===================================================================== *)

Module Batch.

Import Js.
Local Open Scope string_scope.
Local Open Scope Z_scope.

(** An element of the array returned by [processBasicAdsData]: the ad
    with the [metrics] property that the function sets. *)
Record basic_ad : Type := mkBasic {
  b_ad : AdsData.ad;
  b_metrics : option insights
}.

(** [processBasicAdsData(ads)]: the name filter, then [metrics: null]. *)
Definition processBasicAdsData (ads : list AdsData.ad) : list basic_ad :=
  map (fun a => mkBasic a None)
      (List.filter (fun a => negb (AdsData.looks_like_adset a)) ads).

(** A thrown value, by its message. *)
Definition thrown : Type := string.

Definition bind {A B : Type} (x : thrown + A) (f : A -> thrown + B)
  : thrown + B :=
  match x with
  | inl e => inl e
  | inr a => f a
  end.

Notation "'try' x <- c 'in' k" := (bind c (fun x => k))
  (at level 10, x name, c at level 100, k at level 200).

Fixpoint traverse {A B : Type} (f : A -> thrown + B) (l : list A)
  : thrown + list B :=
  match l with
  | [] => inr []
  | a :: r => try b <- f a in try bs <- traverse f r in inr (b :: bs)
  end.

(** [ad.metrics]: a property of it is read next, which raises a
    [TypeError] when it is [null]. *)
Definition metrics_of (a : basic_ad) : thrown + insights :=
  match b_metrics a with
  | None => inl "TypeError"
  | Some m => inr m
  end.

(** [ad.metrics.actions.filter(...)] followed by the [reduce] that adds the
    counts; calling [filter] on [undefined] raises a [TypeError]. *)
Definition purchase_count (a : basic_ad) : thrown + Z :=
  try m <- metrics_of a in
  match actions m with
  | None => inl "TypeError"
  | Some acts =>
      inr (AdsData.sumZ (fun c => int_or0 (value c))
             (List.filter AdsData.mentions_purchase acts))
  end.

(** The statements after the loop, from the result of [getAdsData] on.
    [account_action_values] is [accountInsights.action_values]; the object
    built by [getTodaySpendData] has no such property. *)
Definition fallback (adsData : list basic_ad)
    (account_action_values : option (list action))
  : thrown + list basic_ad :=
  if (length adsData =? 0)%nat then inr []
  else
    let totalAccountConversionValue :=
      match account_action_values with
      | Some vals =>
          AdsData.sumQ (fun c => num_or0 (value c))
            (List.filter AdsData.mentions_purchase vals)
      | None => 0%Q
      end in
    try counts <- traverse purchase_count adsData in
    let totalAdConversions := fold_left Z.add counts 0 in
    traverse
      (fun a =>
         try adConversionCount <- purchase_count a in
         try m <- metrics_of a in
         let conversionValue :=
           if Js.gtb totalAccountConversionValue 0 then
             if (0 <? totalAdConversions) && (0 <? adConversionCount) then
               ((inject_Z adConversionCount / inject_Z totalAdConversions)
                * totalAccountConversionValue)%Q
             else 0%Q
           else (inject_Z adConversionCount * 50)%Q in
         let proportionalActionValues :=
           if Js.gtb conversionValue 0 then
             [mkAction "purchase" (Some (toFixed2 conversionValue))]
           else [] in
         inr (mkBasic (b_ad a)
                (Some (mkInsights (spend m) (impressions m) (clicks m)
                         (ctr m) (cpm m) (cpc m) (actions m)
                         (Some proportionalActionValues)
                         (date_start m) (date_stop m)))))
      adsData.

Section Upstream.

Variable makeRequest :
  string -> Insights.params -> string -> string + Insights.response.

(** [getAdsData] as awaited by the fallback: the ads listed by the
    upstream API, or the error of the request. *)
Variable listed_ads : thrown + list AdsData.ad.

(** The batch [getAdInsights({dateRange = '30d', limit = 50, status,
    startDate, endDate})], the first method of that name: the variants
    requested and what the promise settles to.  The request made by
    [getTodaySpendData] is taken to succeed. *)
Definition getAdInsights (cal : Insights.calendar) (adAccountId : string)
    (dateRange_arg : option string) (limit_arg : option Z)
    (startDate endDate : option string)
  : list string * (thrown + list basic_ad) :=
  let dateRange := default "30d" dateRange_arg in
  let limit := default 50 limit_arg in
  let endpoint := adAccountId ++ "/insights" in
  let range :=
    if String.eqb dateRange "custom" && truthy_str startDate &&
       truthy_str endDate
    then Insights.mkRange (default EmptyString startDate)
                          (default EmptyString endDate)
    else Insights.mkRange (Insights.since (Insights.getDateRange cal dateRange))
                          (Insights.until (Insights.getDateRange cal dateRange)) in
  match Insights.getAdInsights_batch_loop makeRequest endpoint range
          (Insights.approaches_batch range dateRange limit) with
  | (tried, Some (_, _)) => (tried, inr []) (* not reached *)
  | (tried, None) =>
      (tried,
       try ads <- listed_ads in
       fallback (processBasicAdsData ads) None)
  end.

End Upstream.

End Batch.

(* ===================================================================== *)
(** ** The class body and the route handler (metaService.js, line 6;
       routes, lines 62-94)                                              *)
(* ===================================================================== *)

Module Class.

Import Js.
Local Open Scope string_scope.
Local Open Scope Z_scope.

(** A method definition of [class MetaService], by the line it starts on;
    the two definitions named [getAdInsights] are told apart. *)
Inductive body : Type :=
  | BatchGetAdInsights
  | PerAdGetAdInsights
  | Other (line : Z).

(** The method definitions of the class in source order. *)
Definition class_body : list (string * body) :=
  [ ("getCacheKey", Other 74);
    ("getFromCache", Other 80);
    ("setCache", Other 96);
    ("loadCacheFromFile", Other 112);
    ("saveCacheToFile", Other 133);
    ("cleanExpiredCache", Other 154);
    ("clearCache", Other 165);
    ("getCacheStats", Other 182);
    ("makeRequest", Other 198);
    ("processRequestQueue", Other 212);
    ("executeRequest", Other 248);
    ("getAccountInfo", Other 283);
    ("getTodaySpendData", Other 291);
    ("getCampaignInsights", Other 470);
    ("getCampaignInsightsDirect", Other 509);
    ("testConversionValues", Other 545);
    ("getAdInsights", BatchGetAdInsights);
    ("getAdsData", Other 860);
    ("processBasicAdsData", Other 912);
    ("getAdInsights", PerAdGetAdInsights);
    ("processAdInsightsData", Other 1083);
    ("processBulkAdInsightsData", Other 1114);
    ("getCampaignsData", Other 1183);
    ("getAdsetsData", Other 1212);
    ("processAdsData", Other 1245);
    ("getCreativeDetails", Other 1426);
    ("getImageUrlFromHash", Other 1478);
    ("getHighQualityImageUrl", Other 1500);
    ("optimizeImageUrl", Other 1511);
    ("calculatePerformanceScore", Other 1539);
    ("calculateROASScore", Other 1580);
    ("calculateCTRScore", Other 1622);
    ("calculateClickScore", Other 1635);
    ("calculateCPMScore", Other 1658);
    ("calculateCPCScore", Other 1671);
    ("getStatusColor", Other 1687);
    ("getDetailedConversionData", Other 1704);
    ("getAdSpecificInsights", Other 1743);
    ("getDateRange", Other 1812) ].

(** Evaluation of the class body: each definition is stored on the
    prototype under its name, replacing what the name held before. *)
Definition define_all (defs : list (string * body)) : gmap string body :=
  fold_left (fun proto d => <[fst d := snd d]> proto) defs ∅.

Definition prototype : gmap string body := define_all class_body.

(** An argument of a call, as far as the handlers pass them. *)
Inductive js_value : Type :=
  | VUndefined
  | VString (s : string)
  | VOptions (dateRange : string) (limit : Z) (status : string).

(** The text a template literal makes of a value. *)
Definition to_text (v : js_value) : string :=
  match v with
  | VUndefined => "undefined"
  | VString s => s
  | VOptions _ _ _ => "[object Object]"
  end.

(** A parameter with a default value: the default replaces [undefined]. *)
Definition as_text_arg (v : js_value) : option string :=
  match v with
  | VUndefined => None
  | other => Some (to_text other)
  end.

(** What a call of [getAdInsights] yields, by the body that ran. *)
Inductive outcome : Type :=
  | RanPerAd (tried : list string) (result : option Insights.cached)
             (st : Cache.state Insights.cached)
  | RanBatch (tried : list string) (result : Batch.thrown + list Batch.basic_ad)
  | NotAFunction.

Section Service.

Variable makeRequest :
  string -> Insights.params -> string -> string + Insights.response.
Variable listed_ads : Batch.thrown + list AdsData.ad.
Variable cal : Insights.calendar.
Variable adAccountId : string.

(** [metaService.getAdInsights(...args)]: the property is looked up on
    the prototype and the body found there runs with the arguments bound
    to its own parameter list. *)
Definition call_getAdInsights (now now' : Z)
    (st : Cache.state Insights.cached) (args : list js_value) : outcome :=
  let arg i := nth i args VUndefined in
  match prototype !! "getAdInsights" with
  | Some PerAdGetAdInsights =>
      let '(tried, result, st') :=
        Insights.getAdInsights makeRequest now now' st
          (to_text (arg 0%nat)) (as_text_arg (arg 1%nat))
          (as_text_arg (arg 2%nat)) in
      RanPerAd tried result st'
  | Some BatchGetAdInsights =>
      match arg 0%nat with
      | VOptions dateRange limit _ =>
          let '(tried, result) :=
            Batch.getAdInsights makeRequest listed_ads cal adAccountId
              (Some dateRange) (Some limit) None None in
          RanBatch tried result
      | VString _ =>
          let '(tried, result) :=
            Batch.getAdInsights makeRequest listed_ads cal adAccountId
              None None None None in
          RanBatch tried result
      | VUndefined => RanBatch [] (inl "TypeError")
      end
  | _ => NotAFunction
  end.

(** The call in the handler of [GET /ad-insights]:
    [metaService.getAdInsights({ dateRange, limit: parseInt(limit), status })]. *)
Definition route_ad_insights (now now' : Z)
    (st : Cache.state Insights.cached) (dateRange : string) (limit : Z)
    (status : string) : outcome :=
  call_getAdInsights now now' st [VOptions dateRange limit status].

(** The call in the handler of [GET /ads/:adId/insights]:
    [metaService.getAdInsights(adId, dateRange, _t)]. *)
Definition route_ad_id_insights (now now' : Z)
    (st : Cache.state Insights.cached) (adId dateRange : string)
    (_t : js_value) : outcome :=
  call_getAdInsights now now' st [VString adId; VString dateRange; _t].

End Service.

End Class.

(* ===================================================================== *)
(** ** The rules as the specification words them                         *)
(* ===================================================================== *)

Module Rules.

Import Js.
Local Open Scope Q_scope.



End Rules.

(** The entries of an [actions] or [action_values] property that mention a
    purchase, and what they add up to: the conversions and the conversion
    value an ad carries. *)
Module Allocated.

Import Js.




End Allocated.

(** The strategy loop as the specification describes it, and what it
    means for an answer to match the requested date. *)
Module Strategy.

Import Js.

Section Loop.

Context {A R : Type}.
Variable name : A -> string.
Variable accepts : A -> option R.


End Loop.


Section Claims.

Variable makeRequest :
  string -> Insights.params -> string -> string + Insights.response.
Variable endpoint : string.
Variable cacheType_of : Insights.approach -> string.
Variable requested : string.
Variable variants : list Insights.approach.





End Claims.

End Strategy.

(** The acceptance test that each of the three loops applies to one
    variant, read off the loop bodies. *)
Module Accepts.

Import Js.
Local Open Scope string_scope.

Section Upstream.

Variable makeRequest :
  string -> Insights.params -> string -> string + Insights.response.




End Upstream.

End Accepts.

(** Sample upstream behaviour used in the closed statements below. *)
Module InsightExamples.

Import Js.

(** A week-long aggregate, as the upstream API returns it for a date
    preset it does not honour. *)
Definition week_record : insights :=
  mkInsights (Some 12.5%Q) (Some 800%Q) (Some 14%Q) (Some 1.75%Q)
    (Some 15.6%Q) (Some 0.89%Q)
    (Some [mkAction "link_click" (Some 9%Q)]) None
    (Some "2024-03-01") (Some "2024-03-07").

Definition week_response : Insights.response :=
  Insights.mkResponse (Some [week_record]).

(** An upstream that gives the same aggregate to every request. *)
Definition week_upstream (endpoint : string) (p : Insights.params)
    (cacheType : string) : string + Insights.response :=
  inr week_response.

Definition march_9 : Insights.calendar :=
  Insights.mkCalendar "2024-03-09" "2024-03-08" "2024-03-02" "2024-02-08"
                      "2023-12-10".

(** A record for the requested day. *)
Definition day_record : insights :=
  mkInsights (Some 3.2%Q) (Some 150%Q) (Some 4%Q) None None None None None
    (Some "2024-03-09") (Some "2024-03-09").

(** An upstream that honours the date only for the 7-day click window. *)
Definition picky_upstream (endpoint : string) (p : Insights.params)
    (cacheType : string) : string + Insights.response :=
  if String.eqb (default EmptyString (Insights.p_attribution_window p))
                "7d_click"
  then inr (Insights.mkResponse (Some [day_record]))
  else inr week_response.

End InsightExamples.

(** What the queue is expected to maintain, stated on the histories. *)
Module QueueRules.

Import Throttle.

(** Consecutive times are at least [delay] apart. *)
Fixpoint spaced (delay : Z) (times : list Z) : Prop :=
  match times with
  | a :: (b :: _) as rest => a + delay <= b /\ spaced delay rest
  | _ => True
  end.

(** No awaited [executeRequest] of the run ends in a failure. *)
Definition all_succeed (evs : list (Z * event)) : Prop :=
  Forall (fun te => match snd te with
                    | Settled _ (inl _) => False
                    | _ => True
                    end) evs.

(** The request a suspended loop has taken off the queue and not yet
    passed to [executeRequest]. *)
Definition waiting (l : list activation) : list request :=
  flat_map (fun a => match a with
                     | Throttling r _ => [r]
                     | _ => []
                     end) l.

(** At most one drain loop is suspended, exactly when the flag is set; an
    idle service has an empty queue; no loop is ever backing off. *)
Definition one_loop (st : state) : Prop :=
  match loops st with
  | [] => isProcessingQueue st = false /\ requestQueue st = []
  | [a] => isProcessingQueue st = true /\
           match a with BackingOff _ _ => False | _ => True end
  | _ => False
  end.

(** The requests enqueued so far are, in order: those passed to
    [executeRequest], the one being throttled, those still queued. *)
Definition fifo (st : state) : Prop :=
  enqueued st =
  map fst (dispatched st) ++ waiting (loops st) ++ requestQueue st.

(** Bookkeeping of times behind the spacing of dispatches. *)
Definition paced (st : state) : Prop :=
  spaced requestDelay (map snd (dispatched st)) /\
  match loops st with
  | [Executing _ _] => Forall (fun d => snd d <= clock st) (dispatched st)
  | [Throttling _ wake] =>
      Forall (fun d => snd d <= lastRequestTime st) (dispatched st) /\
      lastRequestTime st + requestDelay <= wake
  | _ => Forall (fun d => snd d <= lastRequestTime st) (dispatched st)
  end.

(** Work left for the drain loop. *)
Definition backlog (st : state) : nat :=
  2 * length (requestQueue st) +
  match loops st with
  | [Throttling _ _] => 2
  | [Executing _ _] => 1
  | _ => 0
  end.

(** Three requests made one after the other at time 1000 on a service
    built at that time, each answered 40 ms after it was passed on. *)
Definition plain_params : Insights.params :=
  Insights.mkParams "id,name" None (Some 50) None None None None.

Definition req_A : request := mkRequest "act_1/ads" plain_params "ads" 1.
Definition req_B : request := mkRequest "act_1/campaigns" plain_params "campaigns" 2.
Definition req_C : request := mkRequest "act_1/adsets" plain_params "adsets" 3.

Definition answer : axios_error + Insights.response :=
  inr (Insights.mkResponse (Some [])).

Definition abc_run : list (Z * event) :=
  [ (1000, MakeRequest req_A); (1000, MakeRequest req_B);
    (1000, MakeRequest req_C);
    (1040, Settled 0 answer); (1065, TimerFired 0);
    (1105, Settled 0 answer); (1130, TimerFired 0);
    (1170, Settled 0 answer) ].

(** A failure that is not a rate limit: the upstream answered 500. *)
Definition server_error : axios_error + Insights.response :=
  inl (mkAxiosError (Some 500) (Some "An unknown error occurred")
                    "Request failed with status code 500").

(** A rate limit: the upstream answered 429. *)
Definition rate_limit_error : axios_error :=
  mkAxiosError (Some 429) (Some "User request limit reached")
               "Request failed with status code 429".

End QueueRules.

(** Runs used in the closed statements about the queue. *)
Module QueueExamples.

Import Throttle QueueRules.


(** [req_A], [req_B] and [req_C] are enqueued at time 1000; 5 ms later
    the upstream answers [req_A] with status 500. *)
Definition failing_run : list (Z * event) :=
  [ (1000, MakeRequest req_A); (1000, MakeRequest req_B);
    (1000, MakeRequest req_C); (1005, Settled 0 server_error) ].

(** [req_B] and [req_C] are enqueued at time 1000; 5 ms later the
    upstream answers [req_B] with status 429. *)
Definition rate_limited_run : list (Z * event) :=
  [ (1000, MakeRequest req_B); (1000, MakeRequest req_C);
    (1005, Settled 0 (inl rate_limit_error)) ].

(** The callers and times of the dispatches of a state. *)
Definition dispatch_log (st : state) : list (nat * Z) :=
  map (fun d => (caller (fst d), snd d)) (dispatched st).

End QueueExamples.

(** Sample ads and account data used in the closed statements below. *)
Module AllocationExamples.

Import Js.

Definition ad_with_spend (id name : string) (s : Q) : AdsData.ad :=
  AdsData.mkAd id (Some name)
    (Some [mkInsights (Some s) (Some 1000%Q) (Some 20%Q) None None None
             None None None None]).

(** Two ads with spend 30 and 70. *)
Definition two_ads : list AdsData.ad :=
  [ ad_with_spend "1201" "Blue shoes promo" 30%Q;
    ad_with_spend "1202" "Red shoes promo" 70%Q ].


End AllocationExamples.

(* ===================================================================== *)
(** ** Cache administration (metaService.js, lines 36-37, 111-195)       *)
(* ===================================================================== *)

Module CacheAdmin.

Import Cache.

(** [expiry > now]; false for [NaN]. *)
Definition gt_num (a : jsnum) (now : Z) : bool :=
  match a with
  | NaN => false
  | Num z => now <? z
  end.

(** [Math.round((expiry - now) / 1000)]. *)
Definition expiresIn (now : Z) (expiry : jsnum) : Z :=
  match expiry with
  | Num z => Js.Math_round (inject_Z (z - now) / 1000)%Q
  | NaN => 0 (* not reached: only active entries are listed *)
  end.

(** The object returned by [getCacheStats]; [entries] maps each listed
    key to its [expiresIn] (the order of the list is not modelled). *)
Record stats : Type := mkStats {
  totalEntries : Z;
  activeEntries : Z;
  expiredEntries : Z;
  entries : gmap string Z
}.

(** A number as [JSON.parse] reads it back after [JSON.stringify]: [NaN]
    is written as [null], which is falsy and compares like 0 in every test
    the cache applies to an expiry, as [Num 0] does. *)
Definition json_expiry (e : jsnum) : jsnum :=
  match e with
  | NaN => Num 0
  | Num z => Num z
  end.

Section Store.

Context {V : Type}.

(** [clearCache()]. *)
Definition clearCache (st : state V) : state V :=
  mkState ∅ ∅ (cacheDurations st) None.

(** [getCacheStats()] at time [now]. *)
Definition getCacheStats (now : Z) (st : state V) : stats :=
  let activeEntries :=
    filter (fun kv => gt_num (snd kv) now = true) (cacheExpiry st) in
  mkStats (Z.of_nat (size (cache st)))
          (Z.of_nat (size activeEntries))
          (Z.of_nat (size (cache st)) - Z.of_nat (size activeEntries))
          (expiresIn now <$> activeEntries).

(** What [JSON.parse(JSON.stringify(v))] makes of a cached value. *)
Variable reread : V -> V.

(** [loadCacheFromFile()] at time [now], for a file that is absent or
    holds what [saveCacheToFile] wrote. *)
Definition loadCacheFromFile (now : Z) (st : state V) : state V :=
  match cacheFile st with
  | Some (c, e) =>
      cleanExpiredCache now
        (mkState (reread <$> c) (json_expiry <$> e) (cacheDurations st)
                 (cacheFile st))
  | None => st
  end.

(** The cache part of the constructor, run at time [now] with [file] on
    disk: empty maps, the first table, the load, the second table. *)
Definition construct (now : Z)
    (file : option (gmap string V * gmap string jsnum)) : state V :=
  let st := mkState ∅ ∅ cacheDurations_first file in
  let st := loadCacheFromFile now st in
  mkState (cache st) (cacheExpiry st) cacheDurations_second (cacheFile st).

End Store.

Section Maintenance.

Context {V : Type}.

(** The two maps have the same keys. *)
Definition same_keys (c : gmap string V) (e : gmap string jsnum) : Prop :=
  forall k, c !! k = None <-> e !! k = None.

(** The maps of the service, and those of the file when there is one,
    have the same keys. *)
Definition consistent (st : state V) : Prop :=
  same_keys (cache st) (cacheExpiry st) /\
  forall c e, cacheFile st = Some (c, e) -> same_keys c e.

(** A read or a sweep, with the time at which it happens. *)
Inductive upkeep : Type :=
  | Read (now : Z) (key : string)
  | Sweep (now : Z).

Definition upkeep_step (st : state V) (op : upkeep) : state V :=
  match op with
  | Read now key => snd (getFromCache now st key)
  | Sweep now => cleanExpiredCache now st
  end.

Definition upkeep_run (st : state V) (ops : list upkeep) : state V :=
  fold_left upkeep_step ops st.

End Maintenance.

End CacheAdmin.

(** The requests whose [executeRequest] a suspended loop is awaiting. *)
Module QueueSettling.

Import Throttle.

Definition in_flight (l : list activation) : list request :=
  flat_map (fun a => match a with
                     | Executing r _ => [r]
                     | _ => []
                     end) l.

(** The callers settled so far, followed by the one whose request is in
    flight, are the callers of the requests passed to [executeRequest]. *)
Definition settled_in_step (st : state) : Prop :=
  map fst (delivered st) ++ map caller (in_flight (loops st)) =
  map caller (map fst (dispatched st)).

(** The first character of a string. *)
Definition first_char (s : string) : option ascii :=
  match s with
  | String c _ => Some c
  | EmptyString => None
  end.

End QueueSettling.

(** The volume part of [calculateClickScore]: the value assigned to
    [volumeScore] when the function does not return early. *)
Module ClickParts.

Definition click_volume (clicks : Z) : Z :=
  if (1000 <=? clicks)%Z then 100
  else if (500 <=? clicks)%Z then 90
  else if (200 <=? clicks)%Z then 80
  else if (100 <=? clicks)%Z then 70
  else if (50 <=? clicks)%Z then 60
  else if (20 <=? clicks)%Z then 50
  else if (10 <=? clicks)%Z then 40
  else if (5 <=? clicks)%Z then 30
  else 20.

End ClickParts.


(* ===================================================================== *)
(** ** The handler of [GET /ads] (routes, lines 7-59; metaService.js,
       lines 860-909)                                                    *)
(* ===================================================================== *)

Module Routes.

Import Js.






(** [cached: !_t] in the [meta] of the answer of
    [GET /ads/:adId/insights] (routes, lines 389-416). *)
Definition meta_cached (_t : Class.js_value) : bool :=
  negb (truthy_str (Class.as_text_arg _t)).

End Routes.


(** What holds of the service in every state that a run of the queue
    reaches. *)
Module Reachable.

Import Throttle.

(** A rejection carries the error built by [executeRequest]. *)
Definition wrapped (s : settlement) : Prop :=
  match s with
  | Rejected e => exists ae, e = wrap_error ae
  | Resolved _ => True
  end.

(** Every caller rejected so far was given such an error. *)
Definition rejections_wrapped (st : state) : Prop :=
  Forall (fun d => wrapped (snd d)) (delivered st).

(** The duration table is the one the constructor left, and the two maps
    of the cache, in memory and in the snapshot, have the same keys. *)
Definition store_well_formed (st : state) : Prop :=
  Cache.cacheDurations (store st) = Cache.constructor_cacheDurations /\
  CacheAdmin.consistent (store st).

(** The two together. *)
Definition invariant (st : state) : Prop :=
  rejections_wrapped st /\ store_well_formed st.

End Reachable.


(* ===================================================================== *)
(** * Properties                                                         *)
(* ===================================================================== *)

(** ** Cache store *)

Section CacheFacts.

Context {V : Type}.
Implicit Types (st : Cache.state V) (k cat : string) (v : V).

Lemma cache_after_set now st k v cat :
  Cache.cache (Cache.setCache now st k v cat) = <[k := v]> (Cache.cache st).
Proof.
  unfold Cache.setCache. cbn.
  destruct (_ =? 0); reflexivity.
Qed.

Lemma expiry_after_set now st k v cat :
  Cache.cacheExpiry (Cache.setCache now st k v cat) =
  <[k := Cache.add_duration now (Cache.duration_of st cat)]>
    (Cache.cacheExpiry st).
Proof.
  unfold Cache.setCache. cbn.
  destruct (_ =? 0); reflexivity.
Qed.

(** The categories of the table the constructor leaves in place. *)
Lemma configured_durations cat d :
  Cache.constructor_cacheDurations !! cat = Some d ->
  d = 600000 \/ d = 120000 \/ d = 300000 \/ d = 1800000.
Proof.
  unfold Cache.constructor_cacheDurations, Cache.cacheDurations_second.
  intros H.
  repeat (apply lookup_insert_Some in H as [[_ <-]|[_ H]]; [cbn; lia|]).
  rewrite lookup_empty in H. discriminate.
Qed.

Lemma duration_of_configured st cat d :
  Cache.cacheDurations st = Cache.constructor_cacheDurations ->
  Cache.constructor_cacheDurations !! cat = Some d ->
  Cache.duration_of st cat = Some d /\ 0 < d.
Proof.
  intros Htab Hd. unfold Cache.duration_of. rewrite Htab, Hd. cbn.
  apply configured_durations in Hd.
  destruct (d =? 0) eqn:E; [lia|]. split; [reflexivity|lia].
Qed.

Lemma duration_of_unconfigured st cat :
  Cache.cacheDurations st = Cache.constructor_cacheDurations ->
  Cache.constructor_cacheDurations !! cat = None ->
  Cache.duration_of st cat = None.
Proof.
  intros Htab Hd. unfold Cache.duration_of. rewrite Htab, Hd. reflexivity.
Qed.

(** For a configured category the entry is readable until its time to
    live has elapsed, and absent from then on. *)
Lemma cache_roundtrip_configured now now' st k v cat d :
  0 <= now ->
  Cache.cacheDurations st = Cache.constructor_cacheDurations ->
  Cache.constructor_cacheDurations !! cat = Some d ->
  (now' < now + d ->
   fst (Cache.getFromCache now' (Cache.setCache now st k v cat) k) = Some v)
  /\
  (now + d <= now' ->
   fst (Cache.getFromCache now' (Cache.setCache now st k v cat) k) = None).
Proof.
  intros Hnow Htab Hd.
  destruct (duration_of_configured st cat d Htab Hd) as [Hdur Hpos].
  unfold Cache.getFromCache.
  rewrite expiry_after_set, lookup_insert_eq, Hdur. cbn.
  assert ((now + d =? 0) = false) as -> by lia. cbn.
  split; intros Ht.
  - assert ((now' <? now + d) = true) as -> by lia. cbn.
    rewrite cache_after_set, lookup_insert_eq. reflexivity.
  - assert ((now' <? now + d) = false) as -> by lia.
    assert ((now + d <=? now') = true) as -> by lia. reflexivity.
Qed.

End CacheFacts.

(** C1.  The round trip of the cache fails for an uncategorized key: the
    table left in place by the constructor has no ["default"] entry, so for
    a category outside the table the expiry is not a number and
    [getFromCache] returns nothing, at the very time of the write and at
    any later time. *)
Theorem uncategorized_entry_is_never_read
    (V : Type) (st : Cache.state V) (now now' : Z) (k cat : string) (v : V) :
  Cache.cacheDurations st = Cache.constructor_cacheDurations ->
  Cache.constructor_cacheDurations !! cat = None ->
  fst (Cache.getFromCache now' (Cache.setCache now st k v cat) k) = None.
Proof.
  intros Htab Hcat.
  unfold Cache.getFromCache.
  rewrite expiry_after_set, lookup_insert_eq.
  rewrite (duration_of_unconfigured st cat Htab Hcat). reflexivity.
Qed.

Lemma uncategorized_entry_is_never_read_witness :
  Cache.constructor_cacheDurations !! "default" = None /\
  fst (Cache.getFromCache 1000
         (Cache.setCache 1000 (@Cache.initial Z) "k" 7 "default") "k") = None.
Proof.
  split.
  - reflexivity.
  - apply (uncategorized_entry_is_never_read Z Cache.initial 1000 1000
             "k" "default" 7); reflexivity.
Defined.

(** ** Performance score *)

Section ScoringFacts.

Import Js.
Local Open Scope Q_scope.


Lemma geb_false a b : geb a b = false <-> a < b.
Proof.
  unfold geb. split; intros H.
  - apply Qnot_le_lt. intros Hle. apply Qle_bool_iff in Hle. congruence.
  - apply not_true_is_false. intros Hle. apply Qle_bool_iff in Hle.
    apply (Qlt_not_le _ _ H Hle).
Qed.

Lemma leb_true a b : leb a b = true <-> a <= b.
Proof. unfold leb. apply Qle_bool_iff. Qed.

Lemma leb_false a b : leb a b = false <-> b < a.
Proof. unfold leb. apply (geb_false b a). Qed.



Lemma eqb_true a b : eqb a b = true <-> a == b.
Proof. unfold eqb. apply Qeq_bool_iff. Qed.

End ScoringFacts.


(** C3.  Whatever the other fields hold, a record whose spend is zero or
    whose impression count is zero scores exactly 0. *)
Theorem score_zero_without_delivery (ins : Js.insights) :
  (Js.num_or0 (Js.spend ins) == 0)%Q \/ Js.int_or0 (Js.impressions ins) = 0 ->
  Scoring.calculatePerformanceScore ins = 0.
Proof.
  intros [Hspend | Himp]; unfold Scoring.calculatePerformanceScore.
  - apply eqb_true in Hspend. rewrite Hspend. reflexivity.
  - rewrite Himp. rewrite orb_true_r. reflexivity.
Qed.

Lemma score_zero_without_delivery_witness :
  Scoring.calculatePerformanceScore
    (Js.mkInsights (Some 0%Q) (Some 5000%Q) (Some 120%Q) (Some 2.4%Q)
       (Some 8%Q) (Some 0.4%Q)
       (Some [Js.mkAction "link_click" (Some 120%Q)])
       (Some [Js.mkAction "purchase" (Some 900%Q)]) None None) = 0
  /\
  Scoring.calculatePerformanceScore
    (Js.mkInsights (Some 75.5%Q) None (Some 120%Q) (Some 2.4%Q)
       (Some 8%Q) (Some 0.4%Q) None
       (Some [Js.mkAction "purchase" (Some 900%Q)]) None None) = 0.
Proof.
  split.
  - apply score_zero_without_delivery. left. reflexivity.
  - apply score_zero_without_delivery. right. reflexivity.
Defined.

Ltac cmp_step :=
  match goal with
  | |- context [Js.geb ?a ?b] => destruct (Js.geb a b) eqn:?; cbv iota
  | |- context [Js.leb ?a ?b] => destruct (Js.leb a b) eqn:?; cbv iota
  | |- context [Js.gtb ?a ?b] => destruct (Js.gtb a b) eqn:?; cbv iota
  end.








(** ** Purchase deduplication *)

Lemma max_with0_upper (xs : list Z) (x : Z) :
  In x xs -> x <= SpendData.Math_max_with0 xs.
Proof.
  unfold SpendData.Math_max_with0.
  induction xs as [|y ys IH]; cbn [fold_right In]; [tauto|].
  intros [-> | Hin]; [lia|]. specialize (IH Hin). lia.
Qed.

Lemma max_with0_nonneg (xs : list Z) : 0 <= SpendData.Math_max_with0 xs.
Proof.
  unfold SpendData.Math_max_with0.
  induction xs as [|y ys IH]; cbn [fold_right]; lia.
Qed.

Lemma max_with0_member (xs : list Z) :
  xs <> [] -> Forall (fun c => 0 <= c) xs ->
  In (SpendData.Math_max_with0 xs) xs.
Proof.
  induction xs as [|y ys IH]; [congruence|].
  intros _ Hall. inversion Hall as [|? ? Hy Hys]; subst.
  change (SpendData.Math_max_with0 (y :: ys))
    with (Z.max y (SpendData.Math_max_with0 ys)).
  destruct ys as [|z zs].
  - left. cbn. lia.
  - destruct (Z.max_spec y (SpendData.Math_max_with0 (z :: zs)))
      as [[_ ->] | [_ ->]].
    + right. apply IH; [discriminate | assumption].
    + left. reflexivity.
Qed.

Lemma unique_from_subset (seen l : list Q) (x : Q) :
  In x (Scoring.unique_from seen l) -> In x l.
Proof.
  revert seen. induction l as [|y r IH]; intros seen; cbn; [tauto|].
  destruct (existsb (Qeq_bool y) seen).
  - intros H. right. apply (IH _ H).
  - intros [-> | H]; [left; reflexivity | right; apply (IH _ H)].
Qed.

Lemma unique_from_covers (seen l : list Q) (x : Q) :
  In x l ->
  (exists y, In y seen /\ (x == y)%Q) \/
  (exists y, In y (Scoring.unique_from seen l) /\ (x == y)%Q).
Proof.
  revert seen. induction l as [|z r IH]; intros seen; cbn [In]; [tauto|].
  intros [-> | Hin]; cbn [Scoring.unique_from].
  - destruct (existsb (Qeq_bool x) seen) eqn:E.
    + apply existsb_exists in E as (y & Hy & Hxy).
      apply Qeq_bool_iff in Hxy. left. exists y. tauto.
    + right. exists x. split; [left; reflexivity | reflexivity].
  - destruct (existsb (Qeq_bool z) seen) eqn:E.
    + apply (IH seen Hin).
    + destruct (IH (z :: seen) Hin) as [(y & [<- | Hy] & Hxy) | (y & Hy & Hxy)].
      * right. exists z. split; [left; reflexivity | assumption].
      * left. exists y. tauto.
      * right. exists y. split; [right; assumption | assumption].
Qed.

Lemma Math_max_of_spec (r : list Q) (x : Q) :
  In (Scoring.Math_max_of x r) (x :: r) /\
  (forall y, In y (x :: r) -> (y <= Scoring.Math_max_of x r)%Q).
Proof.
  unfold Scoring.Math_max_of.
  revert x. induction r as [|z r IH]; intros x; cbn [fold_left].
  - split; [left; reflexivity|].
    intros y [-> | []]. apply Qle_refl.
  - destruct (IH (Js.Math_max x z)) as [Hin Hub]. split.
    + destruct Hin as [Heq | Hin]; [|right; right; exact Hin].
      rewrite <- Heq. unfold Js.Math_max.
      destruct (Qle_bool x z); [right; left | left]; reflexivity.
    + assert ((x <= Js.Math_max x z)%Q /\ (z <= Js.Math_max x z)%Q) as [Hx Hz].
      { unfold Js.Math_max. destruct (Qle_bool x z) eqn:E.
        - apply Qle_bool_iff in E. split; [exact E | apply Qle_refl].
        - split; [apply Qle_refl|]. apply Qlt_le_weak, Qnot_le_lt.
          intros Hle. apply Qle_bool_iff in Hle. congruence. }
      intros y [-> | [-> | Hy]].
      * eapply Qle_trans; [exact Hx | apply Hub; left; reflexivity].
      * eapply Qle_trans; [exact Hz | apply Hub; left; reflexivity].
      * apply Hub. right. exact Hy.
Qed.

(** The conversion value that enters the ROAS is the largest of the
    values reported under purchase-like action types. *)
Lemma conversion_value_is_maximum (ins : Js.insights) :
  let vals :=
    map (fun a => Js.num_or0 (Js.value a))
        (List.filter Scoring.is_purchase_value
           (default [] (Js.action_values ins))) in
  vals <> [] ->
  In (Scoring.totalConversionValue ins) vals /\
  (forall v, In v vals -> (v <= Scoring.totalConversionValue ins)%Q).
Proof.
  intros vals. unfold Scoring.totalConversionValue. subst vals. cbv zeta.
  set (pl := List.filter Scoring.is_purchase_value
               (default [] (Js.action_values ins))).
  set (vals := map (fun a => Js.num_or0 (Js.value a)) pl).
  intros Hne.
  assert ((0 <? Z.of_nat (length pl)) = true) as ->.
  { destruct pl; [exfalso; apply Hne; reflexivity | reflexivity]. }
  destruct (Scoring.unique vals) as [|x r] eqn:Eu.
  { exfalso. destruct vals as [|v0 vs]; [apply Hne; reflexivity|].
    cbn in Eu. discriminate. }
  destruct (Math_max_of_spec r x) as [Hin Hub]. split.
  - apply (unique_from_subset [] vals). fold (Scoring.unique vals).
    rewrite Eu. exact Hin.
  - intros v Hv.
    destruct (unique_from_covers [] vals v Hv) as [(y & [] & _) | (y & Hy & Hvy)].
    fold (Scoring.unique vals) in Hy. rewrite Eu in Hy.
    rewrite Hvy. apply Hub, Hy.
Qed.

(** C5.  When several purchase-like action types report the same
    conversions, the result count is the largest of the reported values
    and not their sum: it is one of them and none exceeds it; the values
    5, 5 and 8 resolve to 8. *)
Theorem results_are_the_maximum :
  (forall (data : Js.insights) (acts : list Js.action),
     Js.actions data = Some acts ->
     let counts :=
       map (fun a => Js.int_or0 (Js.value a))
           (List.filter SpendData.is_purchase_action acts) in
     counts <> [] ->
     Forall (fun c => 0 <= c) counts ->
     In (fst (SpendData.getResultsData data)) counts /\
     (forall c, In c counts -> c <= fst (SpendData.getResultsData data)))
  /\
  fst (SpendData.getResultsData
         (Js.mkInsights (Some 120%Q) None None None None None
            (Some [Js.mkAction "purchase" (Some 5%Q);
                   Js.mkAction "link_click" (Some 40%Q);
                   Js.mkAction "omni_purchase" (Some 5%Q);
                   Js.mkAction "onsite_web_purchase" (Some 8%Q)])
            None None None)) = 8.
Proof.
  split.
  - intros data acts Hacts counts Hne Hall.
    unfold SpendData.getResultsData. rewrite Hacts. cbn [fst]. fold counts.
    split.
    + apply max_with0_member; assumption.
    + intros c Hc. apply max_with0_upper, Hc.
  - reflexivity.
Qed.

Lemma results_are_the_maximum_witness :
  let data :=
    Js.mkInsights (Some 64%Q) None None None None None
      (Some [Js.mkAction "purchase" (Some 3%Q);
             Js.mkAction "web_in_store_purchase" (Some 4%Q);
             Js.mkAction "post_engagement" (Some 90%Q)])
      None None None in
  In (fst (SpendData.getResultsData data)) [3; 4] /\
  (forall c, In c [3; 4] -> c <= fst (SpendData.getResultsData data)).
Proof.
  intros data.
  apply (proj1 results_are_the_maximum data _ eq_refl).
  - discriminate.
  - repeat constructor; discriminate.
Defined.

(** ** Proportional allocation *)













(** ** Insight resolution *)

Section LoopFacts.

Context {A R : Type}.
Variable name : A -> string.
Variable accepts : A -> option R.






End LoopFacts.










(** ** Request queue *)

Section QueueFacts.

Import Throttle QueueRules.

Lemma dispatch_spec (t : Z) (r : request) (st st' : state) (a : activation) :
  dispatch t r st = (st', a) ->
  requestQueue st' = requestQueue st /\
  isProcessingQueue st' = isProcessingQueue st /\
  lastRequestTime st' = lastRequestTime st /\
  loops st' = loops st /\
  clock st' = clock st /\
  enqueued st' = enqueued st /\
  dispatched st' = dispatched st ++ [(r, t)] /\
  delivered st' = delivered st /\
  exists hit, a = Executing r hit.
Proof.
  unfold dispatch.
  destruct (negb _).
  - destruct (Cache.getFromCache _ _ _) as [[v|] c];
      intros [= <- <-]; cbn; repeat split; eauto.
  - intros [= <- <-]; cbn; repeat split; eauto.
Qed.

Lemma loop_head_spec (t : Z) (st st' : state) (oa : option activation) :
  loop_head t st = (st', oa) ->
  loops st' = loops st /\ clock st' = clock st /\
  enqueued st' = enqueued st /\ delivered st' = delivered st /\
  lastRequestTime st' = lastRequestTime st /\
  match oa with
  | None =>
      requestQueue st = [] /\ requestQueue st' = [] /\
      isProcessingQueue st' = false /\ dispatched st' = dispatched st
  | Some (Throttling r wake) =>
      requestQueue st = r :: requestQueue st' /\
      isProcessingQueue st' = isProcessingQueue st /\
      dispatched st' = dispatched st /\
      wake = lastRequestTime st + requestDelay
  | Some (Executing r hit) =>
      requestQueue st = r :: requestQueue st' /\
      isProcessingQueue st' = isProcessingQueue st /\
      dispatched st' = dispatched st ++ [(r, t)] /\
      lastRequestTime st + requestDelay <= t
  | Some (BackingOff _ _) => False
  end.
Proof.
  unfold loop_head.
  destruct (requestQueue st) as [|r q] eqn:Eq.
  - intros [= <- <-]. cbn. rewrite Eq. repeat split; reflexivity.
  - cbn [lastRequestTime set_queue].
    destruct (t - lastRequestTime st <? requestDelay) eqn:Et.
    + intros [= <- <-]. cbn. repeat split; try reflexivity. lia.
    + destruct (dispatch t r (set_queue q st)) as [st1 a] eqn:Ed.
      intros [= <- <-].
      apply dispatch_spec in Ed
        as (Hq & Hp & Hl & Hlo & Hc & He & Hd & Hdel & hit & ->).
      cbn in *. repeat split; try assumption; try congruence. lia.
Qed.

Lemma finish_spec (t : Z) (r : request) (hit : option Insights.cached)
    (o : axios_error + Insights.response) (st st1 : state)
    (res : js_error + Insights.cached) :
  executeRequest_finish t r hit o st = (res, st1) ->
  requestQueue st1 = requestQueue st /\
  isProcessingQueue st1 = isProcessingQueue st /\
  lastRequestTime st1 = lastRequestTime st /\
  loops st1 = loops st /\
  clock st1 = clock st /\
  enqueued st1 = enqueued st /\
  dispatched st1 = dispatched st /\
  delivered st1 = delivered st /\
  match res with
  | inl e => exists ae, o = inl ae /\ e = wrap_error ae /\ hit = None
  | inr _ => True
  end.
Proof.
  unfold executeRequest_finish.
  destruct hit as [v|].
  - intros [= <- <-]. repeat split; reflexivity.
  - destruct o as [ae|body]; intros [= <- <-]; cbn; repeat split; eauto.
Qed.

(** The error that [executeRequest] throws never carries a status. *)
Lemma wrapped_error_is_not_rate_limited (ae : axios_error) :
  is_rate_limited (wrap_error ae) = false.
Proof. reflexivity. Qed.

End QueueFacts.

Ltac fields :=
  cbn [Throttle.requestQueue Throttle.isProcessingQueue
       Throttle.lastRequestTime Throttle.store Throttle.loops Throttle.clock
       Throttle.enqueued Throttle.dispatched Throttle.delivered
       Throttle.set_queue Throttle.set_processing Throttle.set_last
       Throttle.set_store Throttle.set_loops Throttle.set_clock
       Throttle.note_enqueued Throttle.note_dispatched
       Throttle.note_delivered] in *.

Section QueueInvariants.

Import Throttle QueueRules.

Lemma put_back_single (oa : option activation) (a0 : activation) :
  put_back 0 oa [a0] = option_list oa.
Proof. destruct oa; reflexivity. Qed.

Lemma spaced_snoc (delay t : Z) (l : list Z) :
  spaced delay l -> Forall (fun x => x + delay <= t) l ->
  spaced delay (l ++ [t]).
Proof.
  induction l as [|a [|b r] IH]; intros Hs Hall.
  - exact I.
  - inversion Hall; subst. cbn. auto.
  - destruct Hs as [Hab Hs]. inversion Hall; subst.
    change ((a :: b :: r) ++ [t]) with (a :: ((b :: r) ++ [t])).
    cbn [app spaced]. split; [exact Hab|]. apply IH; assumption.
Qed.

Lemma one_loop_lookup (st : state) (i : nat) (a : activation) :
  one_loop st -> loops st !! i = Some a ->
  loops st = [a] /\ i = 0%nat /\ isProcessingQueue st = true /\
  match a with BackingOff _ _ => False | _ => True end.
Proof.
  unfold one_loop. destruct (loops st) as [|a0 [|a1 l]]; try tauto.
  - intros _ H. discriminate.
  - intros [Hf Ha] H. destruct i as [|i]; [|discriminate].
    cbn in H. injection H as ->. auto.
Qed.

(** Resuming the loop at its head, with the flag set and nothing waiting
    outside the queue, keeps the order and the single loop. *)
Lemma loop_head_keeps_order (t : Z) (st st' : state) (oa : option activation) :
  loop_head t st = (st', oa) ->
  isProcessingQueue st = true ->
  enqueued st = map fst (dispatched st) ++ requestQueue st ->
  one_loop (set_loops (option_list oa) st') /\
  fifo (set_loops (option_list oa) st').
Proof.
  intros Hh Hflag Hfifo.
  apply loop_head_spec in Hh as (Hlo & Hc & He & Hdel & Hl & Hoa).
  unfold one_loop, fifo. fields.
  destruct oa as [[r wake | r hit | r wake]|]; cbn [option_list]; cbn.
  - destruct Hoa as (Hq & Hp & Hd & Hw).
    split; [split; [congruence | exact I]|].
    rewrite He, Hfifo, Hd, Hq. reflexivity.
  - destruct Hoa as (Hq & Hp & Hd & Hw).
    split; [split; [congruence | exact I]|].
    rewrite He, Hfifo, Hd, Hq, map_app, <- app_assoc. reflexivity.
  - destruct Hoa.
  - destruct Hoa as (Hq & Hq' & Hp & Hd).
    split; [split; assumption|].
    rewrite He, Hfifo, Hd, Hq, Hq'. reflexivity.
Qed.

Lemma loop_head_paced (t : Z) (st st' : state) (oa : option activation) :
  loop_head t st = (st', oa) ->
  clock st = t ->
  spaced requestDelay (map snd (dispatched st)) ->
  Forall (fun d => snd d <= lastRequestTime st) (dispatched st) ->
  paced (set_loops (option_list oa) st').
Proof.
  intros Hh Hclock Hs Hall.
  apply loop_head_spec in Hh as (Hlo & Hc & He & Hdel & Hl & Hoa).
  unfold paced. fields.
  destruct oa as [[r wake | r hit | r wake]|]; cbn [option_list].
  - destruct Hoa as (Hq & Hp & Hd & Hw).
    rewrite Hd, Hl. repeat split; [assumption | assumption | lia].
  - destruct Hoa as (Hq & Hp & Hd & Hw).
    rewrite Hd, Hc, Hclock. split.
    + rewrite map_app. cbn [map snd]. apply spaced_snoc; [assumption|].
      apply List.Forall_forall. intros x Hx. apply in_map_iff in Hx as (d & <- & Hin).
      rewrite List.Forall_forall in Hall. specialize (Hall d Hin).
      cbn beta in Hall. lia.
    + apply List.Forall_app. split.
      * eapply List.Forall_impl; [|exact Hall]. intros d Hd'. cbn in Hd'.
        unfold requestDelay in Hw. lia.
      * constructor; [cbn; lia | constructor].
  - destruct Hoa.
  - destruct Hoa as (Hq & Hq' & Hp & Hd).
    rewrite Hd, Hl. split; assumption.
Qed.

End QueueInvariants.

Section QueueSteps.

Import Throttle QueueRules.

Lemma step_keeps_order (st st' : state) (te : Z * event) :
  one_loop st -> fifo st -> step st te = Some st' ->
  one_loop st' /\ fifo st'.
Proof.
  intros Hone Hfifo. destruct te as [t ev]. unfold step.
  destruct (t <? clock st); [discriminate|].
  destruct ev as [r | i | i o].
  - (* a caller enqueues [r] *)
    intros [= <-]. unfold makeRequest, processRequestQueue. fields.
    destruct (isProcessingQueue st) eqn:Ef; cbn [orb].
    + unfold one_loop, fifo in *. fields.
      destruct (loops st) as [|a [|a' l]]; try tauto.
      * destruct Hone. congruence.
      * split; [exact Hone|].
        rewrite Hfifo, <- !app_assoc. reflexivity.
    + assert (loops st = [] /\ requestQueue st = []) as [Hl Hq].
      { unfold one_loop in Hone. destruct (loops st) as [|a [|a' l]];
          [tauto | destruct Hone; congruence | contradiction]. }
      rewrite Hq. cbn [app length Nat.eqb].
      destruct (loop_head t _) as [st1 oa] eqn:Eh.
      pose proof Eh as Hspec. apply loop_head_spec in Hspec.
      destruct (loop_head_keeps_order _ _ _ _ Eh) as [H1 H2].
      * reflexivity.
      * fields. unfold fifo in Hfifo. rewrite Hl, Hq in Hfifo.
        cbn [waiting flat_map app] in Hfifo. rewrite app_nil_r in Hfifo.
        rewrite Hfifo. reflexivity.
      * destruct Hspec as (Hlo & _). fields. rewrite Hl in Hlo.
        destruct oa as [a|].
        -- rewrite Hlo. cbn [app]. cbn [option_list] in H1, H2. auto.
        -- cbn [option_list] in H1, H2.
           replace st1 with (set_loops [] st1); [auto|].
           destruct st1. cbn in Hlo. subst. reflexivity.
  - (* the timer of loop [i] fires *)
    fields. destruct (loops st !! i) as [a|] eqn:Ea; [|discriminate].
    destruct (one_loop_lookup st i a Hone Ea) as (Hl & -> & Hf & Hnb).
    destruct a as [r wake | r hit | r wake]; [|discriminate|contradiction].
    cbn [resume]. destruct (wake <=? t); [|discriminate].
    destruct (dispatch t r (set_clock t st)) as [st1 a1] eqn:Ed.
    intros [= <-].
    apply dispatch_spec in Ed
      as (Hq & Hp & Hla & Hlo & Hc & He & Hd & Hdel & hit & ->).
    fields. rewrite Hlo, Hl. cbn [put_back].
    unfold one_loop, fifo in *. fields. rewrite Hl in Hfifo.
    cbn [waiting flat_map app] in Hfifo. cbn.
    split; [split; [congruence | exact I]|].
    rewrite He, Hfifo, Hd, Hq, map_app, <- app_assoc. reflexivity.
  - (* the request awaited by loop [i] completes *)
    fields. destruct (loops st !! i) as [a|] eqn:Ea; [|discriminate].
    destruct (one_loop_lookup st i a Hone Ea) as (Hl & -> & Hf & Hnb).
    destruct a as [r wake | r hit | r wake]; try discriminate.
    cbn [resume].
    destruct (executeRequest_finish t r hit o (set_clock t st))
      as [res st1] eqn:Efin.
    apply finish_spec in Efin
      as (Hq & Hp & Hla & Hlo & Hc & He & Hd & Hdel & Hres).
    fields.
    assert (Hready : forall s : settlement, forall last : Z,
              isProcessingQueue (set_last last (note_delivered r s st1)) = true
              /\ enqueued (set_last last (note_delivered r s st1)) =
                 map fst (dispatched (set_last last (note_delivered r s st1)))
                 ++ requestQueue (set_last last (note_delivered r s st1))).
    { intros s last. fields. split; [congruence|].
      unfold fifo in Hfifo. rewrite Hl in Hfifo.
      cbn [waiting flat_map app] in Hfifo. congruence. }
    destruct res as [e | v].
    + destruct Hres as (ae & -> & -> & ->).
      rewrite wrapped_error_is_not_rate_limited.
      destruct (loop_head t _) as [st2 oa] eqn:Eh. intros [= <-].
      pose proof Eh as Hspec. apply loop_head_spec in Hspec as (Hlo2 & _).
      fields. rewrite Hlo2, Hlo, Hl, put_back_single.
      apply (loop_head_keeps_order _ _ _ _ Eh).
      * fields. congruence.
      * destruct (Hready (Rejected (wrap_error ae)) (lastRequestTime st1))
          as [_ H]. fields. exact H.
    + destruct (loop_head t _) as [st2 oa] eqn:Eh. intros [= <-].
      pose proof Eh as Hspec. apply loop_head_spec in Hspec as (Hlo2 & _).
      fields. rewrite Hlo2, Hlo, Hl, put_back_single.
      apply (loop_head_keeps_order _ _ _ _ Eh).
      * fields. congruence.
      * destruct (Hready (Resolved v) t) as [_ H]. fields. exact H.
Qed.

End QueueSteps.

Section QueuePacing.

Import Throttle QueueRules.

Lemma step_keeps_pace (st st' : state) (te : Z * event) :
  one_loop st -> paced st ->
  match snd te with Settled _ (inl _) => False | _ => True end ->
  step st te = Some st' ->
  paced st'.
Proof.
  intros Hone [Hs Hb] Hok. destruct te as [t ev]. unfold step.
  destruct (t <? clock st) eqn:Ek; [discriminate|].
  assert (Hmono : clock st <= t) by lia. clear Ek.
  destruct ev as [r | i | i o].
  - intros [= <-]. unfold makeRequest, processRequestQueue. fields.
    destruct (isProcessingQueue st) eqn:Ef; cbn [orb].
    + unfold paced. fields. split; [exact Hs|].
      destruct (loops st) as [|[r0 w | r0 h | r0 w] [|a' l]]; try exact Hb.
      eapply List.Forall_impl; [|exact Hb]. intros d Hd. cbn beta in *. lia.
    + assert (loops st = [] /\ requestQueue st = []) as [Hl Hq].
      { unfold one_loop in Hone. destruct (loops st) as [|a [|a' l]];
          [tauto | destruct Hone; congruence | contradiction]. }
      rewrite Hq. cbn [app length Nat.eqb]. rewrite Hl in Hb.
      destruct (loop_head t _) as [st1 oa] eqn:Eh.
      pose proof Eh as Hspec. apply loop_head_spec in Hspec as (Hlo & _).
      fields. rewrite Hl in Hlo.
      pose proof (loop_head_paced _ _ _ _ Eh eq_refl Hs Hb) as Hp.
      destruct oa as [a|]; cbn [option_list] in Hp.
      * rewrite Hlo. exact Hp.
      * replace st1 with (set_loops [] st1); [exact Hp|].
        destruct st1. cbn in Hlo. subst. reflexivity.
  - fields. destruct (loops st !! i) as [a|] eqn:Ea; [|discriminate].
    destruct (one_loop_lookup st i a Hone Ea) as (Hl & -> & Hf & Hnb).
    destruct a as [r wake | r hit | r wake]; [|discriminate|contradiction].
    cbn [resume]. destruct (wake <=? t) eqn:Ew; [|discriminate].
    destruct (dispatch t r (set_clock t st)) as [st1 a1] eqn:Ed.
    intros [= <-].
    apply dispatch_spec in Ed
      as (Hq & Hp & Hla & Hlo & Hc & He & Hd & Hdel & hit & ->).
    fields. rewrite Hlo, Hl. cbn [put_back]. rewrite Hl in Hb.
    destruct Hb as [Hall Hwake].
    unfold paced. fields. change (<[0%nat:=Executing r hit]> [Throttling r wake])
      with [Executing r hit].
    rewrite Hd, Hc. split.
    + rewrite map_app. cbn [map snd]. apply spaced_snoc; [assumption|].
      apply List.Forall_forall. intros x Hx.
      apply in_map_iff in Hx as (d & <- & Hin).
      rewrite List.Forall_forall in Hall. specialize (Hall d Hin).
      cbn beta in Hall. lia.
    + apply List.Forall_app. split.
      * eapply List.Forall_impl; [|exact Hall]. intros d Hd'.
        cbn beta in Hd'. unfold requestDelay in Hwake. lia.
      * constructor; [cbn; lia | constructor].
  - fields. destruct (loops st !! i) as [a|] eqn:Ea; [|discriminate].
    destruct (one_loop_lookup st i a Hone Ea) as (Hl & -> & Hf & Hnb).
    destruct a as [r wake | r hit | r wake]; try discriminate.
    cbn [resume]. rewrite Hl in Hb.
    destruct (executeRequest_finish t r hit o (set_clock t st))
      as [res st1] eqn:Efin.
    apply finish_spec in Efin
      as (Hq & Hp & Hla & Hlo & Hc & He & Hd & Hdel & Hres).
    fields.
    destruct res as [e | v].
    { destruct Hres as (ae & -> & _). cbn in Hok. contradiction. }
    destruct (loop_head t _) as [st2 oa] eqn:Eh. intros [= <-].
    pose proof Eh as Hspec. apply loop_head_spec in Hspec as (Hlo2 & _).
    fields. rewrite Hlo2, Hlo, Hl, put_back_single.
    apply (loop_head_paced _ _ _ _ Eh).
    + fields. congruence.
    + fields. rewrite Hd. exact Hs.
    + fields. rewrite Hd.
      eapply List.Forall_impl; [|exact Hb]. intros d Hd'. cbn beta in *. lia.
Qed.

Lemma initial_invariants (t0 : Z) :
  one_loop (initial t0) /\ fifo (initial t0) /\ paced (initial t0).
Proof.
  unfold one_loop, fifo, paced. cbn. repeat split; constructor.
Qed.

Lemma run_invariants (evs : list (Z * event)) (st st' : state) :
  one_loop st -> fifo st -> run st evs = Some st' ->
  (one_loop st' /\ fifo st') /\
  (paced st -> all_succeed evs -> paced st').
Proof.
  revert st. induction evs as [|te rest IH]; intros st Hone Hfifo; cbn [run].
  - intros [= <-]. auto.
  - destruct (step st te) as [st1|] eqn:Es; [|discriminate].
    intros Hrun.
    destruct (step_keeps_order _ _ _ Hone Hfifo Es) as [Hone1 Hfifo1].
    destruct (IH st1 Hone1 Hfifo1 Hrun) as [Hkeep Hpace].
    split; [exact Hkeep|].
    intros Hp Hall. inversion Hall as [|? ? Hte Hrest]; subst.
    apply Hpace; [|exact Hrest].
    apply (step_keeps_pace _ _ _ Hone Hp Hte Es).
Qed.

End QueuePacing.

(** C8.  A request that fails is rejected to its caller and the loop moves
    on, whatever the status of the upstream answer: the error thrown by
    [executeRequest] carries no status, so a 429 never reaches the branch
    that waits and puts the request back. *)
Theorem rate_limited_request_is_rejected
    (st : Throttle.state) (t : Z) (i : nat) (r : Throttle.request)
    (ae : Throttle.axios_error) :
  QueueRules.one_loop st ->
  Throttle.clock st <= t ->
  Throttle.loops st !! i = Some (Throttle.Executing r None) ->
  Throttle.ax_status ae = Some 429 ->
  exists st',
    Throttle.step st (t, Throttle.Settled i (inl ae)) = Some st' /\
    Throttle.delivered st' =
      Throttle.delivered st ++
      [(Throttle.caller r, Throttle.Rejected (Throttle.wrap_error ae))] /\
    (forall a, In a (Throttle.loops st') ->
       match a with Throttle.BackingOff _ _ => False | _ => True end) /\
    (exists taken, Throttle.requestQueue st =
                   taken ++ Throttle.requestQueue st') /\
    Throttle.dispatched st' =
      Throttle.dispatched st ++
      match Throttle.loops st' with
      | [Throttle.Executing r' _] => [(r', t)]
      | _ => []
      end.
Proof.
  intros Hone Hclock Hi _.
  destruct (one_loop_lookup st i _ Hone Hi) as (Hl & -> & Hf & _).
  unfold Throttle.step.
  assert ((t <? Throttle.clock st) = false) as -> by lia.
  fields. rewrite Hi. cbn [Throttle.resume Throttle.executeRequest_finish].
  rewrite wrapped_error_is_not_rate_limited.
  destruct (Throttle.loop_head t _) as [st2 oa] eqn:Eh.
  pose proof Eh as Hspec.
  apply loop_head_spec in Hspec as (Hlo & Hc & He & Hdel & Hla & Hoa).
  fields. eexists. split; [reflexivity|]. fields.
  rewrite Hlo, Hl, put_back_single.
  split; [exact Hdel|].
  destruct oa as [[r' wake | r' hit | r' wake]|]; cbn [option_list].
  - destruct Hoa as (Hq & Hp & Hd & Hw). repeat split.
    + intros a [<- | []]. exact I.
    + exists [r']. exact Hq.
    + rewrite Hd, app_nil_r. reflexivity.
  - destruct Hoa as (Hq & Hp & Hd & Hw). repeat split.
    + intros a [<- | []]. exact I.
    + exists [r']. exact Hq.
    + exact Hd.
  - destruct Hoa.
  - destruct Hoa as (Hq & Hq' & Hp & Hd). repeat split.
    + intros a [].
    + exists []. rewrite Hq, Hq'. reflexivity.
    + rewrite Hd, app_nil_r. reflexivity.
Qed.

Lemma rate_limited_request_is_rejected_witness :
  option_map QueueExamples.dispatch_log
    (Throttle.run (Throttle.initial 1000) QueueExamples.rate_limited_run)
  = Some [(2%nat, 1000); (3%nat, 1005)] /\
  option_map Throttle.delivered
    (Throttle.run (Throttle.initial 1000) QueueExamples.rate_limited_run)
  = Some [(2%nat, Throttle.Rejected
                    (Throttle.wrap_error QueueRules.rate_limit_error))] /\
  exists st st',
    Throttle.run (Throttle.initial 1000)
      [(1000, Throttle.MakeRequest QueueRules.req_B);
       (1000, Throttle.MakeRequest QueueRules.req_C)] = Some st /\
    Throttle.step st
      (1005, Throttle.Settled 0 (inl QueueRules.rate_limit_error)) = Some st' /\
    Throttle.delivered st' =
      Throttle.delivered st ++
      [(2%nat, Throttle.Rejected
                 (Throttle.wrap_error QueueRules.rate_limit_error))].
Proof.
  split; [vm_compute; reflexivity|]. split; [vm_compute; reflexivity|].
  assert (Hobs : option_map
                   (fun st => (Throttle.clock st, Throttle.loops st))
                   (Throttle.run (Throttle.initial 1000)
                      [(1000, Throttle.MakeRequest QueueRules.req_B);
                       (1000, Throttle.MakeRequest QueueRules.req_C)])
                 = Some (1000, [Throttle.Executing QueueRules.req_B None]))
    by (vm_compute; reflexivity).
  destruct (Throttle.run (Throttle.initial 1000)
              [(1000, Throttle.MakeRequest QueueRules.req_B);
               (1000, Throttle.MakeRequest QueueRules.req_C)])
    as [st|] eqn:E; [|discriminate].
  injection Hobs as Hclock Hloops.
  destruct (initial_invariants 1000) as (Hone0 & Hfifo0 & _).
  destruct (run_invariants _ _ _ Hone0 Hfifo0 E) as [[Hone _] _].
  destruct (rate_limited_request_is_rejected st 1005 0%nat QueueRules.req_B
              QueueRules.rate_limit_error Hone)
    as (st' & Hstep & Hdel & _).
  - rewrite Hclock. lia.
  - rewrite Hloops. reflexivity.
  - reflexivity.
  - exists st, st'. split; [reflexivity|]. split; [exact Hstep | exact Hdel].
Defined.

(** A suspended drain loop can always be resumed once its timer is due. *)
Lemma drain_can_resume (st : Throttle.state) (a : Throttle.activation) :
  QueueRules.one_loop st -> Throttle.loops st = [a] ->
  exists ev bound,
    forall t, bound <= t -> is_Some (Throttle.step st (t, ev)).
Proof.
  intros Hone Hl. unfold QueueRules.one_loop in Hone. rewrite Hl in Hone.
  destruct Hone as [_ Hnb].
  destruct a as [r wake | r hit | r wake]; [| |contradiction].
  - exists (Throttle.TimerFired 0), (Z.max (Throttle.clock st) wake).
    intros t Ht. unfold Throttle.step.
    assert ((t <? Throttle.clock st) = false) as -> by lia.
    fields. rewrite Hl. cbn [lookup list_lookup Throttle.resume].
    assert ((wake <=? t) = true) as -> by lia.
    destruct (Throttle.dispatch _ _ _). eexists. reflexivity.
  - exists (Throttle.Settled 0 QueueRules.answer), (Throttle.clock st).
    intros t Ht. unfold Throttle.step.
    assert ((t <? Throttle.clock st) = false) as -> by lia.
    fields. rewrite Hl. cbn [lookup list_lookup Throttle.resume].
    destruct (Throttle.executeRequest_finish _ _ _ _ _) as [[e|v] st1].
    + destruct (Throttle.is_rate_limited e); [eexists; reflexivity|].
      destruct (Throttle.loop_head _ _). eexists. reflexivity.
    + destruct (Throttle.loop_head _ _). eexists. reflexivity.
Qed.

Section QueueLiveness.

Import Throttle QueueRules.

Lemma timer_step (st : state) (r : request) (wake t : Z) :
  loops st = [Throttling r wake] -> clock st <= t -> wake <= t ->
  exists st1 hit,
    step st (t, TimerFired 0) = Some st1 /\
    loops st1 = [Executing r hit] /\
    requestQueue st1 = requestQueue st /\
    enqueued st1 = enqueued st.
Proof.
  intros Hl Hc Hw. unfold step.
  assert ((t <? clock st) = false) as -> by lia.
  fields. rewrite Hl. cbn [lookup list_lookup resume].
  assert ((wake <=? t) = true) as -> by lia.
  destruct (dispatch t r (set_clock t st)) as [st1 a] eqn:Ed.
  apply dispatch_spec in Ed
    as (Hq & Hp & Hla & Hlo & Hck & He & Hd & Hdel & hit & ->).
  fields. eexists _, hit. split; [reflexivity|]. fields.
  rewrite Hlo, Hl. auto.
Qed.

Lemma settle_step (st : state) (r : request) (hit : option Insights.cached)
    (t : Z) :
  loops st = [Executing r hit] -> clock st <= t ->
  exists st1,
    step st (t, Settled 0 answer) = Some st1 /\
    enqueued st1 = enqueued st /\
    ((requestQueue st = [] /\ loops st1 = []) \/
     (exists r' a, requestQueue st = r' :: requestQueue st1 /\
                   loops st1 = [a] /\
                   ((exists w, a = Throttling r' w) \/
                    (exists h, a = Executing r' h)))).
Proof.
  intros Hl Hc. unfold step.
  assert ((t <? clock st) = false) as -> by lia.
  fields. rewrite Hl. cbn [lookup list_lookup resume].
  destruct (executeRequest_finish t r hit answer (set_clock t st))
    as [res st1] eqn:Efin.
  pose proof Efin as Hfin.
  apply finish_spec in Hfin
    as (Hq & Hp & Hla & Hlo & Hck & He & Hd & Hdel & Hres).
  destruct res as [e|v].
  { destruct Hres as (ae & Habs & _). discriminate. }
  destruct (loop_head t _) as [st2 oa] eqn:Eh.
  apply loop_head_spec in Eh as (Hlo2 & Hc2 & He2 & Hdel2 & Hl2 & Hoa).
  fields. eexists. split; [reflexivity|]. fields.
  rewrite Hlo2, Hlo, Hl, put_back_single.
  split; [congruence|].
  destruct oa as [[r' w | r' h | r' w]|]; cbn [option_list].
  - destruct Hoa as (Hq' & _). right. exists r', (Throttling r' w).
    rewrite <- Hq, Hq'. eauto.
  - destruct Hoa as (Hq' & _). right. exists r', (Executing r' h).
    rewrite <- Hq, Hq'. eauto.
  - destruct Hoa.
  - destruct Hoa as (Hq' & _). left. rewrite <- Hq. auto.
Qed.

(** From every state the service can reach, there is a continuation in
    which the upstream answers every request and after which all the
    requests enqueued have been passed to [executeRequest], in the order
    of their arrival, and the drain loop has ended. *)
Lemma drain_completes (st : state) :
  one_loop st -> fifo st ->
  exists evs st',
    run st evs = Some st' /\ all_succeed evs /\
    loops st' = [] /\ isProcessingQueue st' = false /\
    map fst (dispatched st') = enqueued st.
Proof.
  remember (backlog st) as n eqn:Hn.
  revert st Hn. induction n as [n IH] using lt_wf_ind.
  intros st Hn Hone Hfifo.
  destruct (loops st) as [|a [|a' l]] eqn:Hl.
  - exists [], st. unfold one_loop, fifo in *. rewrite Hl in *.
    destruct Hone as [Hf Hq]. rewrite Hq in Hfifo.
    cbn [waiting flat_map app] in Hfifo. rewrite app_nil_r in Hfifo.
    split; [reflexivity|]. split; [constructor|]. split; [reflexivity|].
    split; [assumption | congruence].
  - destruct a as [r wake | r hit | r wake].
    + destruct (timer_step st r wake (Z.max (clock st) wake) Hl)
        as (st1 & hit & Hstep & Hl1 & Hq1 & He1); [lia | lia |].
      destruct (step_keeps_order _ _ _ Hone Hfifo Hstep) as [Hone1 Hfifo1].
      destruct (IH (backlog st1)) with (st := st1)
        as (evs & st' & Hrun & Hall & Hdone & Hflag & Hd); auto.
      { subst n. unfold backlog. rewrite Hl, Hl1, Hq1. lia. }
      exists ((Z.max (clock st) wake, TimerFired 0) :: evs), st'.
      cbn [run]. rewrite Hstep.
      split; [assumption|].
      split; [constructor; [exact I | assumption]|].
      split; [assumption|]. split; [assumption | congruence].
    + destruct (settle_step st r hit (clock st) Hl)
        as (st1 & Hstep & He1 & Hcases); [lia|].
      destruct (step_keeps_order _ _ _ Hone Hfifo Hstep) as [Hone1 Hfifo1].
      destruct (IH (backlog st1)) with (st := st1)
        as (evs & st' & Hrun & Hall & Hdone & Hflag & Hd); auto.
      { subst n. unfold backlog. rewrite Hl.
        destruct Hcases as [[Hq Hl1] | (r' & a & Hq & Hl1 & Ha)].
        - unfold one_loop in Hone1. rewrite Hl1 in Hone1.
          destruct Hone1 as [_ Hq1]. rewrite Hl1, Hq, Hq1. cbn. lia.
        - rewrite Hl1, Hq. cbn [length].
          destruct Ha as [[w ->] | [h ->]]; lia. }
      exists ((clock st, Settled 0 answer) :: evs), st'.
      cbn [run]. rewrite Hstep.
      split; [assumption|].
      split; [constructor; [exact I | assumption]|].
      split; [assumption|]. split; [assumption | congruence].
    + unfold one_loop in Hone. rewrite Hl in Hone. tauto.
  - unfold one_loop in Hone. rewrite Hl in Hone. contradiction.
Qed.

End QueueLiveness.




(** When the queue is not empty the batch fallback raises a [TypeError]
    before it allocates anything: [processBasicAdsData] has set [metrics]
    to [null] on every ad. *)
Lemma batch_fallback_never_allocates (ads : list AdsData.ad)
    (account_action_values : option (list Js.action)) :
  Batch.fallback (Batch.processBasicAdsData ads) account_action_values =
  match Batch.processBasicAdsData ads with
  | [] => inr []
  | _ :: _ => inl "TypeError"%string
  end.
Proof.
  unfold Batch.fallback, Batch.processBasicAdsData.
  destruct (List.filter _ ads) as [|a l]; reflexivity.
Qed.

(** ** The two methods named [getAdInsights] *)

Lemma prototype_has_no_batch (n : string) :
  Class.prototype !! n <> Some Class.BatchGetAdInsights.
Proof.
  intros H.
  apply elem_of_map_to_list in H.
  assert (Hall : Forall (fun kv : string * Class.body =>
                           snd kv <> Class.BatchGetAdInsights)
                        (map_to_list Class.prototype)).
  { vm_compute. repeat constructor; discriminate. }
  rewrite Forall_forall in Hall. apply (Hall _ H). reflexivity.
Qed.

(** C10.  The class body defines [getAdInsights] twice, the batch variant
    first and the per-ad variant later; the later definition is the one on
    the prototype, no name leads to the batch variant, and the call of the
    route handler, which passes an options object, runs the per-ad variant
    with the text of that object as the ad id and the default date range. *)
Theorem per_ad_variant_shadows_batch :
  (exists before between after,
     Class.class_body =
       before ++ ("getAdInsights", Class.BatchGetAdInsights) ::
       between ++ ("getAdInsights", Class.PerAdGetAdInsights) :: after /\
     Forall (fun d => fst d <> "getAdInsights") after) /\
  Class.prototype !! "getAdInsights" = Some Class.PerAdGetAdInsights /\
  (forall n, Class.prototype !! n <> Some Class.BatchGetAdInsights) /\
  (forall (mk : string -> Insights.params -> string ->
                 string + Insights.response)
          (listed : Batch.thrown + list AdsData.ad)
          (cal : Insights.calendar) (adAccountId : string)
          (now now' : Z) (st : Cache.state Insights.cached)
          (dateRange : string) (limit : Z) (status : string),
     Class.route_ad_insights mk listed cal adAccountId now now' st
       dateRange limit status =
     let '(tried, result, st') :=
       Insights.getAdInsights mk now now' st "[object Object]" None None in
     Class.RanPerAd tried result st').
Proof.
  split; [|split; [|split]].
  - exists (firstn 16 Class.class_body),
           [("getAdsData", Class.Other 860);
            ("processBasicAdsData", Class.Other 912)],
           (skipn 20 Class.class_body).
    split; [reflexivity|].
    cbn. repeat constructor; discriminate.
  - vm_compute. reflexivity.
  - exact prototype_has_no_batch.
  - intros. unfold Class.route_ad_insights, Class.call_getAdInsights.
    assert (Class.prototype !! "getAdInsights" = Some Class.PerAdGetAdInsights)
      as -> by (vm_compute; reflexivity).
    reflexivity.
Qed.

(* ===================================================================== *)
(** * Further properties                                                 *)
(* ===================================================================== *)

(** ** Cache reads, sweeps, statistics and restarts *)

Section CacheUpkeep.

Context {V : Type}.
Implicit Types (st : Cache.state V) (k : string).

(** The three ways a read can go. *)
Lemma getFromCache_cases now st k :
  (exists z, Cache.cacheExpiry st !! k = Some (Cache.Num z) /\ z <> 0 /\
             now < z /\
             Cache.getFromCache now st k = (Cache.cache st !! k, st))
  \/
  (exists z, Cache.cacheExpiry st !! k = Some (Cache.Num z) /\ z <> 0 /\
             z <= now /\
             Cache.getFromCache now st k =
               (None, Cache.mkState (delete k (Cache.cache st))
                        (delete k (Cache.cacheExpiry st))
                        (Cache.cacheDurations st) (Cache.cacheFile st)))
  \/
  ((Cache.cacheExpiry st !! k = None \/
    Cache.cacheExpiry st !! k = Some Cache.NaN \/
    Cache.cacheExpiry st !! k = Some (Cache.Num 0)) /\
   Cache.getFromCache now st k = (None, st)).
Proof.
  unfold Cache.getFromCache.
  destruct (Cache.cacheExpiry st !! k) as [[|z]|] eqn:E.
  - right. right. cbn. auto.
  - cbn [Cache.truthy Cache.lt_num Cache.ge_num].
    destruct (z =? 0) eqn:Ez; cbn [negb andb].
    + right. right. assert (z = 0) as -> by lia. auto.
    + destruct (now <? z) eqn:El.
      * left. exists z. repeat split; [lia | lia].
      * right. left. exists z.
        assert ((z <=? now) = true) as -> by lia.
        repeat split; [lia | lia].
  - right. right. auto.
Qed.

Lemma setCache_file now st k (v : V) cat :
  Cache.cacheFile (Cache.setCache now st k v cat) = Cache.cacheFile st \/
  Cache.cacheFile (Cache.setCache now st k v cat) =
    Some (Cache.cache (Cache.setCache now st k v cat),
          Cache.cacheExpiry (Cache.setCache now st k v cat)).
Proof.
  unfold Cache.setCache. cbn. destruct (_ =? 0); cbn; auto.
Qed.

Lemma clean_dead now st k :
  filter (fun kv : string * Cache.jsnum => Cache.ge_num now (snd kv) = true)
         (Cache.cacheExpiry st) !! k = None <->
  match Cache.cacheExpiry st !! k with
  | Some e => Cache.ge_num now e = false
  | None => True
  end.
Proof.
  rewrite map_lookup_filter_None.
  destruct (Cache.cacheExpiry st !! k) as [e|]; cbn [snd]; split.
  - intros [H | H]; [discriminate|].
    specialize (H e eq_refl). destruct (Cache.ge_num now e); congruence.
  - intros H. right. intros x [= <-]. congruence.
  - auto.
  - auto.
Qed.

Lemma clean_lookup_cache now st k :
  Cache.cache (Cache.cleanExpiredCache now st) !! k =
  match Cache.cacheExpiry st !! k with
  | Some e => if Cache.ge_num now e then None else Cache.cache st !! k
  | None => Cache.cache st !! k
  end.
Proof.
  unfold Cache.cleanExpiredCache. cbn [Cache.cache].
  pose proof (clean_dead now st k) as Hdead.
  destruct (Cache.cache st !! k) as [v|] eqn:Ec.
  - destruct (Cache.cacheExpiry st !! k) as [e|] eqn:Ee.
    + destruct (Cache.ge_num now e) eqn:Eg.
      * apply map_lookup_filter_None. right. intros x _ Hx. cbn [fst] in Hx.
        apply Hdead in Hx. congruence.
      * apply map_lookup_filter_Some. split; [exact Ec|]. cbn [fst].
        apply Hdead. reflexivity.
    + apply map_lookup_filter_Some. split; [exact Ec|]. cbn [fst].
      apply Hdead. exact I.
  - assert (filter (fun kv : string * V =>
               filter (fun kv0 : string * Cache.jsnum =>
                         Cache.ge_num now (snd kv0) = true)
                      (Cache.cacheExpiry st) !! fst kv = None)
              (Cache.cache st) !! k = None) as ->.
    { apply map_lookup_filter_None. left. exact Ec. }
    destruct (Cache.cacheExpiry st !! k) as [e|]; [|reflexivity].
    destruct (Cache.ge_num now e); reflexivity.
Qed.

Lemma clean_lookup_expiry now st k :
  Cache.cacheExpiry (Cache.cleanExpiredCache now st) !! k =
  match Cache.cacheExpiry st !! k with
  | Some e => if Cache.ge_num now e then None else Some e
  | None => None
  end.
Proof.
  unfold Cache.cleanExpiredCache. cbn [Cache.cacheExpiry].
  pose proof (clean_dead now st k) as Hdead.
  destruct (Cache.cacheExpiry st !! k) as [e|] eqn:Ee.
  - destruct (Cache.ge_num now e) eqn:Eg.
    + apply map_lookup_filter_None. right. intros x _ Hx. cbn [fst] in Hx.
      apply Hdead in Hx. congruence.
    + apply map_lookup_filter_Some. split; [exact Ee|]. cbn [fst].
      apply Hdead. reflexivity.
  - apply map_lookup_filter_None. left. exact Ee.
Qed.

(** What a read returns depends on the two entries of its key only. *)
Lemma read_depends_on_key now (st1 st2 : Cache.state V) k :
  Cache.cacheExpiry st1 !! k = Cache.cacheExpiry st2 !! k ->
  Cache.cache st1 !! k = Cache.cache st2 !! k ->
  fst (Cache.getFromCache now st1 k) = fst (Cache.getFromCache now st2 k).
Proof.
  intros He Hc. unfold Cache.getFromCache. rewrite He, Hc.
  destruct (Cache.cacheExpiry st2 !! k) as [e|]; [|reflexivity].
  destruct (Cache.truthy e && Cache.lt_num now e); [reflexivity|].
  destruct (Cache.truthy e && Cache.ge_num now e); reflexivity.
Qed.

(** A read touches no key but its own. *)
Lemma read_keeps_other_keys now st k k' :
  k <> k' ->
  Cache.cacheExpiry (snd (Cache.getFromCache now st k)) !! k' =
    Cache.cacheExpiry st !! k' /\
  Cache.cache (snd (Cache.getFromCache now st k)) !! k' =
    Cache.cache st !! k'.
Proof.
  intros Hk.
  destruct (getFromCache_cases now st k)
    as [(z & _ & _ & _ & ->) | [(z & _ & _ & _ & ->) | (_ & ->)]];
    cbn; rewrite ?lookup_delete_ne by exact Hk; auto.
Qed.

End CacheUpkeep.

(** X1.  The value map and the expiry map of the cache always have the
    same keys, in memory and in the snapshot file: every operation of the
    cache keeps it so, and so does a restart from such a file. *)
Theorem cache_keys_stay_in_step (V : Type) (st : Cache.state V) :
  CacheAdmin.consistent st ->
  (forall now k v cat, CacheAdmin.consistent (Cache.setCache now st k v cat))
  /\
  (forall now k, CacheAdmin.consistent (snd (Cache.getFromCache now st k)))
  /\
  (forall now, CacheAdmin.consistent (Cache.cleanExpiredCache now st)) /\
  CacheAdmin.consistent (Cache.saveCacheToFile st) /\
  CacheAdmin.consistent (CacheAdmin.clearCache st) /\
  (forall reread now,
     CacheAdmin.consistent (CacheAdmin.loadCacheFromFile reread now st) /\
     CacheAdmin.consistent
       (CacheAdmin.construct reread now (Cache.cacheFile st))).
Proof.
  intros [Hmem Hfile].
  assert (Hclean : forall now (s : Cache.state V),
            CacheAdmin.same_keys (Cache.cache s) (Cache.cacheExpiry s) ->
            CacheAdmin.same_keys (Cache.cache (Cache.cleanExpiredCache now s))
              (Cache.cacheExpiry (Cache.cleanExpiredCache now s))).
  { intros now s Hs k. rewrite clean_lookup_cache, clean_lookup_expiry.
    specialize (Hs k).
    destruct (Cache.cacheExpiry s !! k) as [e|]; [|tauto].
    destruct (Cache.ge_num now e); [tauto|].
    split; [intros H; apply Hs in H; discriminate | discriminate]. }
  assert (Hload : forall (reread : V -> V) (c : gmap string V) e,
            CacheAdmin.same_keys c e ->
            CacheAdmin.same_keys (reread <$> c) (CacheAdmin.json_expiry <$> e)).
  { intros reread c e Hce k. rewrite !lookup_fmap, !fmap_None. apply Hce. }
  split; [|split; [|split; [|split; [|split]]]].
  - intros now k v cat. split.
    + intros j. rewrite cache_after_set, expiry_after_set.
      rewrite !lookup_insert_None. specialize (Hmem j). tauto.
    + intros c e Hf.
      destruct (setCache_file now st k v cat) as [H | H]; rewrite H in Hf.
      * apply (Hfile c e Hf).
      * injection Hf as <- <-. intros j.
        rewrite cache_after_set, expiry_after_set.
        rewrite !lookup_insert_None. specialize (Hmem j). tauto.
  - intros now k.
    destruct (getFromCache_cases now st k)
      as [(z & _ & _ & _ & ->) | [(z & _ & _ & _ & ->) | (_ & ->)]];
      cbn [snd]; try (split; assumption).
    split; [|exact Hfile].
    intros j. cbn. rewrite !lookup_delete_None. specialize (Hmem j). tauto.
  - intros now. split; [apply Hclean, Hmem | exact Hfile].
  - split; [exact Hmem|]. cbn. intros c e [= <- <-]. exact Hmem.
  - split; [|cbn; discriminate].
    intros k. cbn. rewrite !lookup_empty. tauto.
  - intros reread now. split.
    + unfold CacheAdmin.loadCacheFromFile.
      destruct (Cache.cacheFile st) as [[c e]|] eqn:Ef;
        [|split; [assumption|]; intros c e Hc; rewrite Ef in Hc;
          discriminate].
      split.
      * apply Hclean. cbn. apply Hload, (Hfile c e eq_refl).
      * cbn. intros c' e' [= <- <-]. apply (Hfile c e eq_refl).
    + unfold CacheAdmin.construct, CacheAdmin.loadCacheFromFile. cbn.
      destruct (Cache.cacheFile st) as [[c e]|] eqn:Ef; cbn.
      * split.
        -- apply (Hclean now (Cache.mkState _ _ _ _)). cbn.
           apply Hload, (Hfile c e eq_refl).
        -- cbn. intros c' e' [= <- <-]. apply (Hfile c e eq_refl).
      * split; [|cbn; discriminate].
        intros k. cbn. rewrite !lookup_empty. tauto.
Qed.

Lemma cache_keys_stay_in_step_witness :
  CacheAdmin.consistent (@Cache.initial Z) /\
  CacheAdmin.consistent
    (Cache.cleanExpiredCache 5000
       (Cache.setCache 1000 (@Cache.initial Z) "k" 7 "ads")).
Proof.
  assert (H0 : CacheAdmin.consistent (@Cache.initial Z)).
  { split; [intros k; cbn; rewrite !lookup_empty; tauto | cbn; discriminate]. }
  split; [exact H0|].
  pose proof (cache_keys_stay_in_step Z _ H0) as (Hset & _).
  pose proof (cache_keys_stay_in_step Z _ (Hset 1000 "k" 7 "ads"))
    as (_ & _ & Hsweep & _).
  exact (Hsweep 5000).
Defined.

(** X2.  Cache operations are local to their key: writing or reading
    (and possibly evicting) key [k] never changes what a read of another
    key returns. *)
Theorem cache_operations_are_local
    (V : Type) (st : Cache.state V) (k k' : string) :
  k <> k' ->
  (forall now now' v cat,
     fst (Cache.getFromCache now' (Cache.setCache now st k v cat) k') =
     fst (Cache.getFromCache now' st k'))
  /\
  (forall now now',
     fst (Cache.getFromCache now' (snd (Cache.getFromCache now st k)) k') =
     fst (Cache.getFromCache now' st k')).
Proof.
  intros Hk. split.
  - intros now now' v cat. apply read_depends_on_key.
    + rewrite expiry_after_set, lookup_insert_ne by exact Hk. reflexivity.
    + rewrite cache_after_set, lookup_insert_ne by exact Hk. reflexivity.
  - intros now now'.
    destruct (read_keeps_other_keys now st k k' Hk) as [He Hc].
    apply read_depends_on_key; assumption.
Qed.

Lemma cache_operations_are_local_witness :
  fst (Cache.getFromCache 1500
         (Cache.setCache 1200
            (Cache.setCache 1000 (@Cache.initial Z) "a" 1 "ads") "b" 2
            "account") "a") = Some 1.
Proof.
  rewrite (proj1 (cache_operations_are_local Z
                    (Cache.setCache 1000 Cache.initial "a" 1 "ads")
                    "b" "a" ltac:(discriminate))).
  reflexivity.
Defined.

(** X3.  A hit leaves the cache as it was; a miss is final: once a read
    of [k] has returned nothing, every later read of [k] returns nothing
    too, until [k] is written again. *)
Theorem cache_miss_is_final
    (V : Type) (st : Cache.state V) (now : Z) (k : string) :
  (forall v, fst (Cache.getFromCache now st k) = Some v ->
             snd (Cache.getFromCache now st k) = st)
  /\
  (fst (Cache.getFromCache now st k) = None ->
   forall now', now <= now' ->
     fst (Cache.getFromCache now' (snd (Cache.getFromCache now st k)) k)
     = None).
Proof.
  destruct (getFromCache_cases now st k)
    as [(z & He & Hz & Hlt & Hr) | [(z & He & Hz & Hle & Hr) | (He & Hr)]];
    rewrite Hr; cbn [fst snd]; split; try discriminate; try reflexivity.
  - intros Hc now' Hn.
    destruct (getFromCache_cases now' st k)
      as [(z' & _ & _ & _ & ->) | [(z' & _ & _ & _ & ->) | (_ & ->)]];
      cbn [fst]; [exact Hc | reflexivity | reflexivity].
  - intros _ now' Hn. unfold Cache.getFromCache. cbn.
    rewrite lookup_delete_eq. reflexivity.
  - intros _ now' Hn. unfold Cache.getFromCache.
    destruct He as [-> | [-> | ->]]; reflexivity.
Qed.

Lemma cache_miss_is_final_witness :
  let st := Cache.setCache 1000 (@Cache.initial Z) "k" 7 "todaySpend" in
  fst (Cache.getFromCache 200000 st "k") = None /\
  fst (Cache.getFromCache 200001
         (snd (Cache.getFromCache 200000 st "k")) "k") = None.
Proof.
  intros st.
  assert (H : fst (Cache.getFromCache 200000 st "k") = None) by reflexivity.
  split; [exact H|].
  apply (proj2 (cache_miss_is_final Z st 200000 "k") H). lia.
Defined.

(** X4.  Sweeping is invisible to reads: after [cleanExpiredCache] at time
    [now], a read at any time from [now] on returns what it would have
    returned without the sweep. *)
Theorem sweep_is_invisible_to_reads
    (V : Type) (st : Cache.state V) (now now' : Z) (k : string) :
  now <= now' ->
  fst (Cache.getFromCache now' (Cache.cleanExpiredCache now st) k) =
  fst (Cache.getFromCache now' st k).
Proof.
  intros Hn.
  destruct (Cache.cacheExpiry st !! k) as [e|] eqn:Ee.
  - destruct (Cache.ge_num now e) eqn:Eg.
    + unfold Cache.getFromCache at 1.
      rewrite clean_lookup_expiry, Ee, Eg.
      unfold Cache.getFromCache. rewrite Ee.
      destruct e as [|z]; [discriminate|]. cbn in Eg |- *.
      assert ((now' <? z) = false) as -> by lia.
      rewrite andb_false_r.
      destruct (negb (z =? 0) && (z <=? now')); reflexivity.
    + apply read_depends_on_key.
      * rewrite clean_lookup_expiry, Ee, Eg. reflexivity.
      * rewrite clean_lookup_cache, Ee, Eg. reflexivity.
  - apply read_depends_on_key.
    + rewrite clean_lookup_expiry, Ee. reflexivity.
    + rewrite clean_lookup_cache, Ee. reflexivity.
Qed.

Lemma sweep_is_invisible_to_reads_witness :
  let st := Cache.setCache 1000 (@Cache.initial Z) "k" 7 "creatives" in
  fst (Cache.getFromCache 3000 (Cache.cleanExpiredCache 2000 st) "k") =
  fst (Cache.getFromCache 3000 st "k").
Proof.
  intros st. apply sweep_is_invisible_to_reads. lia.
Defined.

(** X5.  An entry written under a category that is not in the table is
    never evicted: through any sequence of reads and sweeps its value
    stays in the map, and no read ever returns it. *)
Theorem uncategorized_entry_is_never_evicted
    (V : Type) (st : Cache.state V) (now : Z) (k cat : string) (v : V)
    (ops : list CacheAdmin.upkeep) :
  Cache.cacheDurations st = Cache.constructor_cacheDurations ->
  Cache.constructor_cacheDurations !! cat = None ->
  let st' := CacheAdmin.upkeep_run (Cache.setCache now st k v cat) ops in
  Cache.cache st' !! k = Some v /\
  forall now', fst (Cache.getFromCache now' st' k) = None.
Proof.
  intros Htab Hcat st'.
  assert (Hinv : Cache.cache st' !! k = Some v /\
                 Cache.cacheExpiry st' !! k = Some Cache.NaN).
  { subst st'. unfold CacheAdmin.upkeep_run.
    assert (H0 : Cache.cache (Cache.setCache now st k v cat) !! k = Some v /\
                 Cache.cacheExpiry (Cache.setCache now st k v cat) !! k =
                 Some Cache.NaN).
    { rewrite cache_after_set, expiry_after_set, !lookup_insert_eq.
      rewrite (duration_of_unconfigured st cat Htab Hcat). auto. }
    revert H0. generalize (Cache.setCache now st k v cat).
    induction ops as [|op ops IH]; intros s Hs; [exact Hs|].
    cbn [fold_left]. apply IH. destruct Hs as [Hc He].
    destruct op as [t key | t]; cbn [CacheAdmin.upkeep_step].
    - destruct (decide (key = k)) as [-> | Hne].
      + unfold Cache.getFromCache. rewrite He. cbn. auto.
      + destruct (read_keeps_other_keys t s key k Hne) as [He' Hc'].
        rewrite He', Hc'. auto.
    - rewrite clean_lookup_cache, clean_lookup_expiry, He. cbn. auto. }
  destruct Hinv as [Hc He]. split; [exact Hc|].
  intros now'. unfold Cache.getFromCache. rewrite He. reflexivity.
Qed.

Lemma uncategorized_entry_is_never_evicted_witness :
  let st' :=
    CacheAdmin.upkeep_run
      (Cache.setCache 1000 (@Cache.initial Z) "k" 7 "ad_insights")
      [CacheAdmin.Read 2000 "k"; CacheAdmin.Sweep 9000000;
       CacheAdmin.Read 9000001 "k"] in
  Cache.cache st' !! "k" = Some 7 /\
  forall now', fst (Cache.getFromCache now' st' "k") = None.
Proof.
  apply (uncategorized_entry_is_never_evicted Z Cache.initial 1000 "k"
           "ad_insights" 7); reflexivity.
Defined.

Section CacheStats.

Context {V : Type}.

Lemma same_keys_size (c : gmap string V) (e : gmap string Cache.jsnum) :
  CacheAdmin.same_keys c e -> size c = size e.
Proof.
  intros H. rewrite <- (size_dom c), <- (size_dom e). f_equal.
  apply set_eq. intros k. rewrite !elem_of_dom, <- !not_eq_None_Some.
  specialize (H k). tauto.
Qed.

Lemma active_lookup now (e : gmap string Cache.jsnum) k x :
  filter (fun kv : string * Cache.jsnum =>
            CacheAdmin.gt_num (snd kv) now = true) e !! k = Some x <->
  exists z, x = Cache.Num z /\ e !! k = Some (Cache.Num z) /\ now < z.
Proof.
  rewrite map_lookup_filter_Some. cbn [snd]. split.
  - intros [He Hgt]. destruct x as [|z]; [discriminate|].
    exists z. cbn in Hgt. repeat split; [exact He | lia].
  - intros (z & -> & He & Hlt). split; [exact He|]. cbn. lia.
Qed.

Lemma setCache_same_keys now (st : Cache.state V) k (v : V) cat :
  CacheAdmin.same_keys (Cache.cache st) (Cache.cacheExpiry st) ->
  CacheAdmin.same_keys (Cache.cache (Cache.setCache now st k v cat))
    (Cache.cacheExpiry (Cache.setCache now st k v cat)).
Proof.
  intros Hmem j. rewrite cache_after_set, expiry_after_set.
  rewrite !lookup_insert_None. specialize (Hmem j). tauto.
Qed.

End CacheStats.

(** X6.  The statistics are sound when the two maps have the same keys:
    the active and expired counts are non-negative and add up to the
    total, every listed remaining time is non-negative, and the keys listed
    as active are exactly those a read at that time would find. *)
Theorem cache_stats_are_sound
    (V : Type) (st : Cache.state V) (now : Z) :
  CacheAdmin.same_keys (Cache.cache st) (Cache.cacheExpiry st) ->
  0 <= now ->
  let s := CacheAdmin.getCacheStats now st in
  0 <= CacheAdmin.activeEntries s <= CacheAdmin.totalEntries s /\
  0 <= CacheAdmin.expiredEntries s /\
  CacheAdmin.activeEntries s + CacheAdmin.expiredEntries s =
    CacheAdmin.totalEntries s /\
  Z.of_nat (size (CacheAdmin.entries s)) = CacheAdmin.activeEntries s /\
  (forall k n, CacheAdmin.entries s !! k = Some n -> 0 <= n) /\
  (forall k, is_Some (CacheAdmin.entries s !! k) <->
             is_Some (fst (Cache.getFromCache now st k))).
Proof.
  intros Hkeys Hnow s. subst s. unfold CacheAdmin.getCacheStats.
  cbn [CacheAdmin.activeEntries CacheAdmin.totalEntries
       CacheAdmin.expiredEntries CacheAdmin.entries].
  set (active := filter _ (Cache.cacheExpiry st)).
  assert (Hsize : (size active <= size (Cache.cache st))%nat).
  { rewrite (same_keys_size _ _ Hkeys).
    apply map_subseteq_size, map_filter_subseteq. }
  split; [lia|]. split; [lia|]. split; [lia|].
  split; [rewrite map_size_fmap; reflexivity|]. split.
  - intros k n. rewrite lookup_fmap. intros Hn.
    apply fmap_Some in Hn as (x & Hx & ->).
    apply active_lookup in Hx as (z & -> & _ & Hlt).
    unfold CacheAdmin.expiresIn, Js.Math_round.
    assert (H0 : (0 <= inject_Z (z - now) / 1000 + (1 # 2))%Q).
    { assert (0 <= inject_Z (z - now))%Q
        by (change 0%Q with (inject_Z 0); rewrite <- Zle_Qle; lia).
      assert (0 <= inject_Z (z - now) / 1000)%Q
        by (apply Qle_shift_div_l; [reflexivity | lra]).
      lra. }
    apply Qfloor_resp_le in H0. exact H0.
  - intros k. rewrite lookup_fmap, fmap_is_Some.
    split.
    + intros [x Hx]. apply active_lookup in Hx as (z & -> & He & Hlt).
      unfold Cache.getFromCache. rewrite He. cbn.
      assert ((z =? 0) = false) as -> by lia.
      assert ((now <? z) = true) as -> by lia. cbn.
      destruct (Cache.cache st !! k) eqn:Ec; [eauto|].
      apply Hkeys in Ec. congruence.
    + intros [v Hv].
      destruct (getFromCache_cases now st k)
        as [(z & He & Hz & Hlt & Hr) | [(z & _ & _ & _ & Hr) | (_ & Hr)]];
        rewrite Hr in Hv; try discriminate.
      exists (Cache.Num z). apply active_lookup. eauto.
Qed.

Lemma cache_stats_are_sound_witness :
  let st :=
    Cache.setCache 5000
      (Cache.setCache 1000 (@Cache.initial Z) "old" 1 "todaySpend")
      "new" 2 "ad_insights" in
  let s := CacheAdmin.getCacheStats 130000 (Cache.setCache 100000 st "live" 3 "ads") in
  0 <= CacheAdmin.activeEntries s <= CacheAdmin.totalEntries s /\
  CacheAdmin.activeEntries s + CacheAdmin.expiredEntries s =
    CacheAdmin.totalEntries s.
Proof.
  intros st s.
  assert (H0 : CacheAdmin.same_keys (Cache.cache (@Cache.initial Z))
                 (Cache.cacheExpiry (@Cache.initial Z))).
  { intros k. cbn. rewrite !lookup_empty. tauto. }
  pose proof (setCache_same_keys 100000 _ "live" 3 "ads"
                (setCache_same_keys 5000 _ "new" 2 "ad_insights"
                   (setCache_same_keys 1000 _ "old" 1 "todaySpend" H0)))
    as Hkeys.
  destruct (cache_stats_are_sound Z _ 130000 Hkeys ltac:(lia))
    as (Ha & _ & Hsum & _).
  split; [exact Ha | exact Hsum].
Defined.



(** ** Settlement of queued requests *)

Section QueueSettlingFacts.

Import Throttle QueueRules QueueSettling.

Lemma loop_head_settles (t : Z) (st st' : state) (oa : option activation) :
  loop_head t st = (st', oa) ->
  map fst (delivered st) = map caller (map fst (dispatched st)) ->
  settled_in_step (set_loops (option_list oa) st').
Proof.
  intros Hh Hs.
  apply loop_head_spec in Hh as (Hlo & Hc & He & Hdel & Hl & Hoa).
  unfold settled_in_step. fields. rewrite Hdel.
  destruct oa as [[r wake | r hit | r wake]|]; cbn [option_list].
  - destruct Hoa as (_ & _ & Hd & _). rewrite Hd. cbn.
    rewrite app_nil_r. exact Hs.
  - destruct Hoa as (_ & _ & Hd & _). rewrite Hd, !map_app. cbn.
    rewrite Hs. reflexivity.
  - destruct Hoa.
  - destruct Hoa as (_ & _ & _ & Hd). rewrite Hd. cbn.
    rewrite app_nil_r. exact Hs.
Qed.

Lemma step_keeps_settling (st st' : state) (te : Z * event) :
  one_loop st -> settled_in_step st -> step st te = Some st' ->
  settled_in_step st'.
Proof.
  intros Hone Hs. destruct te as [t ev]. unfold step.
  destruct (t <? clock st); [discriminate|].
  destruct ev as [r | i | i o].
  - intros [= <-]. unfold makeRequest, processRequestQueue. fields.
    destruct (isProcessingQueue st) eqn:Ef; cbn [orb].
    + exact Hs.
    + assert (loops st = [] /\ requestQueue st = []) as [Hl Hq].
      { unfold one_loop in Hone. destruct (loops st) as [|a [|a' l]];
          [tauto | destruct Hone; congruence | contradiction]. }
      rewrite Hq. cbn [app length Nat.eqb].
      destruct (loop_head t _) as [st1 oa] eqn:Eh.
      pose proof Eh as Hspec. apply loop_head_spec in Hspec as (Hlo & _).
      fields. rewrite Hl in Hlo.
      pose proof (loop_head_settles _ _ _ _ Eh) as Hp. fields.
      unfold settled_in_step in Hs. rewrite Hl in Hs. cbn in Hs.
      rewrite app_nil_r in Hs. specialize (Hp Hs).
      destruct oa as [a|]; cbn [option_list] in Hp.
      * rewrite Hlo. exact Hp.
      * replace st1 with (set_loops [] st1); [exact Hp|].
        destruct st1. cbn in Hlo. subst. reflexivity.
  - fields. destruct (loops st !! i) as [a|] eqn:Ea; [|discriminate].
    destruct (one_loop_lookup st i a Hone Ea) as (Hl & -> & Hf & Hnb).
    destruct a as [r wake | r hit | r wake]; [|discriminate|contradiction].
    cbn [resume]. destruct (wake <=? t); [|discriminate].
    destruct (dispatch t r (set_clock t st)) as [st1 a1] eqn:Ed.
    intros [= <-].
    apply dispatch_spec in Ed
      as (Hq & Hp & Hla & Hlo & Hc & He & Hd & Hdel & hit & ->).
    fields. rewrite Hlo, Hl. cbn [put_back].
    unfold settled_in_step in *. fields. rewrite Hl in Hs. cbn in Hs |- *.
    rewrite app_nil_r in Hs. rewrite Hdel, Hd, !map_app, Hs. reflexivity.
  - fields. destruct (loops st !! i) as [a|] eqn:Ea; [|discriminate].
    destruct (one_loop_lookup st i a Hone Ea) as (Hl & -> & Hf & Hnb).
    destruct a as [r wake | r hit | r wake]; try discriminate.
    cbn [resume].
    destruct (executeRequest_finish t r hit o (set_clock t st))
      as [res st1] eqn:Efin.
    apply finish_spec in Efin
      as (Hq & Hp & Hla & Hlo & Hc & He & Hd & Hdel & Hres).
    fields.
    assert (Hready : forall s : settlement,
              map fst (delivered st1 ++ [(caller r, s)]) =
              map caller (map fst (dispatched st1))).
    { intros s. unfold settled_in_step in Hs. rewrite Hl in Hs. cbn in Hs.
      rewrite map_app, Hdel, Hd. exact Hs. }
    destruct res as [e | v].
    + destruct Hres as (ae & -> & -> & ->).
      rewrite wrapped_error_is_not_rate_limited.
      destruct (loop_head t _) as [st2 oa] eqn:Eh. intros [= <-].
      pose proof Eh as Hspec. apply loop_head_spec in Hspec as (Hlo2 & _).
      fields. rewrite Hlo2, Hlo, Hl, put_back_single.
      apply (loop_head_settles _ _ _ _ Eh). fields. apply Hready.
    + destruct (loop_head t _) as [st2 oa] eqn:Eh. intros [= <-].
      pose proof Eh as Hspec. apply loop_head_spec in Hspec as (Hlo2 & _).
      fields. rewrite Hlo2, Hlo, Hl, put_back_single.
      apply (loop_head_settles _ _ _ _ Eh). fields. apply Hready.
Qed.

Lemma run_keeps_settling (evs : list (Z * event)) (st st' : state) :
  one_loop st -> fifo st -> settled_in_step st ->
  run st evs = Some st' -> settled_in_step st'.
Proof.
  revert st. induction evs as [|te rest IH]; intros st Hone Hfifo Hs;
    cbn [run].
  - intros [= <-]. exact Hs.
  - destruct (step st te) as [st1|] eqn:Es; [|discriminate].
    destruct (step_keeps_order _ _ _ Hone Hfifo Es) as [Hone1 Hfifo1].
    apply (IH st1 Hone1 Hfifo1 (step_keeps_settling _ _ _ Hone Hs Es)).
Qed.

End QueueSettlingFacts.

(** X8.  Every caller is settled exactly once and in the order of the
    calls: at any point of any run the callers settled so far are the first
    callers of [makeRequest], in order, and the run can always be continued
    to a point where all of them have been settled. *)
Theorem callers_are_settled_once_in_order
    (t0 : Z) (evs : list (Z * Throttle.event)) (st : Throttle.state) :
  Throttle.run (Throttle.initial t0) evs = Some st ->
  (exists later,
     map Throttle.caller (Throttle.enqueued st) =
     map fst (Throttle.delivered st) ++ later) /\
  (exists more st',
     Throttle.run st more = Some st' /\
     Throttle.enqueued st' = Throttle.enqueued st /\
     map fst (Throttle.delivered st') =
       map Throttle.caller (Throttle.enqueued st)).
Proof.
  intros Hrun.
  destruct (initial_invariants t0) as (Hone0 & Hfifo0 & _).
  assert (Hs0 : QueueSettling.settled_in_step (Throttle.initial t0))
    by reflexivity.
  destruct (run_invariants evs _ _ Hone0 Hfifo0 Hrun) as [[Hone Hfifo] _].
  pose proof (run_keeps_settling _ _ _ Hone0 Hfifo0 Hs0 Hrun) as Hs.
  split.
  - unfold QueueRules.fifo in Hfifo. unfold QueueSettling.settled_in_step in Hs.
    rewrite Hfifo, map_app, <- Hs, <- app_assoc. eexists. reflexivity.
  - destruct (drain_completes st Hone Hfifo)
      as (more & st' & Hmore & _ & Hidle & _ & Hd).
    destruct (run_invariants more _ _ Hone Hfifo Hmore) as [[Hone' Hfifo'] _].
    pose proof (run_keeps_settling _ _ _ Hone Hfifo Hs Hmore) as Hs'.
    exists more, st'. split; [exact Hmore|].
    unfold QueueSettling.settled_in_step in Hs'. rewrite Hidle in Hs'.
    cbn in Hs'. rewrite app_nil_r in Hs'.
    unfold QueueRules.fifo, QueueRules.one_loop in Hfifo', Hone'.
    rewrite Hidle in Hfifo', Hone'. destruct Hone' as [_ Hq].
    rewrite Hq in Hfifo'. cbn in Hfifo'. rewrite app_nil_r in Hfifo'.
    split; [congruence|]. rewrite Hs', Hd. reflexivity.
Qed.

Lemma callers_are_settled_once_in_order_witness :
  exists st,
    Throttle.run (Throttle.initial 1000) QueueExamples.failing_run = Some st /\
    map Throttle.caller (Throttle.enqueued st) = [1%nat; 2%nat; 3%nat] /\
    map fst (Throttle.delivered st) = [1%nat] /\
    exists more st',
      Throttle.run st more = Some st' /\
      map fst (Throttle.delivered st') = [1%nat; 2%nat; 3%nat].
Proof.
  assert (Hobs : option_map
                   (fun st => (map Throttle.caller (Throttle.enqueued st),
                               map fst (Throttle.delivered st)))
                   (Throttle.run (Throttle.initial 1000)
                      QueueExamples.failing_run)
                 = Some ([1%nat; 2%nat; 3%nat], [1%nat]))
    by (vm_compute; reflexivity).
  destruct (Throttle.run (Throttle.initial 1000) QueueExamples.failing_run)
    as [st|] eqn:E; [|discriminate].
  injection Hobs as Henq Hdel.
  exists st. split; [reflexivity|]. split; [exact Henq|].
  split; [exact Hdel|].
  destruct (callers_are_settled_once_in_order 1000 _ st E)
    as (_ & more & st' & Hmore & _ & Hall).
  exists more, st'. split; [exact Hmore|]. rewrite Hall. exact Henq.
Defined.

(** ** The upstream client and the cache *)

Section ClientFacts.

Import Throttle.

Lemma append_cons (x : ascii) (a b : string) :
  (String x a ++ b)%string = String x (a ++ b)%string.
Proof. reflexivity. Qed.

Lemma append_assoc_string (a b c : string) :
  ((a ++ b) ++ c)%string = (a ++ (b ++ c))%string.
Proof.
  induction a as [|x a IH]; [reflexivity|].
  rewrite !append_cons, IH. reflexivity.
Qed.

Lemma join_amp_starts (x : string) (r : list string) :
  exists rest, join_amp (x :: r) = (x ++ rest)%string.
Proof.
  unfold join_amp. revert x. induction r as [|y r IH]; intros x; cbn.
  - exists EmptyString. induction x as [|c x IHx]; [reflexivity|].
    rewrite append_cons. congruence.
  - destruct (IH (x ++ "&" ++ y)%string) as [rest ->].
    exists ("&" ++ y ++ rest)%string.
    rewrite !append_assoc_string. reflexivity.
Qed.

(** The key of a request starts, after the endpoint and the question
    mark, with the name of its first parameter. *)
Lemma cache_key_first_char (endpoint : string) (p : Insights.params) :
  exists rest,
    getCacheKey endpoint p =
    (endpoint ++ "?" ++
     String (match Insights.p_t p,
                   Insights.p_attribution_window p,
                   Insights.p_date_preset p with
             | Some _, _, _ => "_"
             | None, Some _, _ => "a"
             | None, None, Some _ => "d"
             | None, None, None => "f"
             end)%char rest)%string.
Proof.
  unfold getCacheKey, sorted_entries.
  destruct (Insights.p_t p) as [t|]; cbn [entry app map fst snd].
  - match goal with
      | |- context [join_amp (?x :: ?r)] =>
          destruct (join_amp_starts x r) as [rest ->]
      end.
    eexists. reflexivity.
  - destruct (Insights.p_attribution_window p) as [w|];
      cbn [entry app map fst snd].
    + match goal with
      | |- context [join_amp (?x :: ?r)] =>
          destruct (join_amp_starts x r) as [rest ->]
      end.
      eexists. reflexivity.
    + destruct (Insights.p_date_preset p) as [d|];
        cbn [entry app map fst snd];
        match goal with
        | |- context [join_amp (?x :: ?r)] =>
            destruct (join_amp_starts x r) as [rest ->]
        end;
        eexists; reflexivity.
Qed.

(** Requests to one endpoint with and without [_t] never share a key. *)
Lemma cache_key_separates_t (endpoint : string) (p p' : Insights.params) :
  Insights.p_t p = None -> Insights.p_t p' <> None ->
  getCacheKey endpoint p' <> getCacheKey endpoint p.
Proof.
  intros Hp Hp' E.
  destruct (cache_key_first_char endpoint p) as [r1 E1].
  destruct (cache_key_first_char endpoint p') as [r2 E2].
  rewrite E1, E2 in E. apply (inj (String.app endpoint)) in E.
  rewrite Hp in E. destruct (Insights.p_t p'); [|congruence].
  destruct (Insights.p_attribution_window p), (Insights.p_date_preset p);
    discriminate E.
Qed.


Lemma dispatch_reads (t : Z) (r : request) (st : state) :
  Js.truthy_str (Insights.p_t (rq_params r)) = false ->
  snd (dispatch t r st) =
  Executing r (fst (Cache.getFromCache t (store st)
                      (getCacheKey (endpoint r) (rq_params r)))).
Proof.
  intros Ht. unfold dispatch. rewrite Ht. cbn [negb store note_dispatched].
  destruct (Cache.getFromCache _ _ _) as [[v|] c]; reflexivity.
Qed.

Lemma dispatch_bypasses (t : Z) (r : request) (st : state) :
  Js.truthy_str (Insights.p_t (rq_params r)) = true ->
  dispatch t r st = (note_dispatched r t st, Executing r None).
Proof. intros Ht. unfold dispatch. rewrite Ht. reflexivity. Qed.

Lemma finish_store (t : Z) (r : request) (body : Insights.response)
    (st : state) :
  store (snd (executeRequest_finish t r None (inr body) st)) =
  Cache.setCache t (store st) (getCacheKey (endpoint r) (rq_params r))
    (Insights.CResponse body) (cacheType r).
Proof. reflexivity. Qed.

Lemma resume_hit (t : Z) (r : request) (v : Insights.cached)
    (o : axios_error + Insights.response) (st : state) :
  exists st' next,
    resume t (Executing r (Some v)) o st = Some (st', next) /\
    delivered st' = (delivered st ++ [(caller r, Resolved v)])%list.
Proof.
  cbn [resume executeRequest_finish].
  destruct (loop_head t (set_last t (note_delivered r (Resolved v) st)))
    as [st' next] eqn:E.
  exists st', next. split; [reflexivity|].
  apply loop_head_spec in E as (_ & _ & _ & Hd & _). exact Hd.
Qed.

End ClientFacts.

(** X9.  A request repeated while the answer is fresh is settled from the
    cache, whatever the network would answer; once the time to live of its
    category has elapsed, and at any time when the category has no time to
    live, the repeated request goes to the network again. *)
Theorem repeated_request_and_the_cache
    (st : Throttle.state) (r r' : Throttle.request)
    (body : Insights.response) (t : Z) :
  0 <= t ->
  Cache.cacheDurations (Throttle.store st) = Cache.constructor_cacheDurations ->
  Js.truthy_str (Insights.p_t (Throttle.rq_params r)) = false ->
  Throttle.endpoint r' = Throttle.endpoint r ->
  Throttle.rq_params r' = Throttle.rq_params r ->
  let st1 :=
    snd (Throttle.executeRequest_finish t r None (inr body) st) in
  (forall d t', Cache.constructor_cacheDurations !! Throttle.cacheType r = Some d ->
     t' < t + d ->
     snd (Throttle.dispatch t' r' st1) =
       Throttle.Executing r' (Some (Insights.CResponse body)) /\
     forall t'' o, exists st3 next,
       Throttle.resume t'' (snd (Throttle.dispatch t' r' st1)) o
         (fst (Throttle.dispatch t' r' st1)) = Some (st3, next) /\
       Throttle.delivered st3 =
         (Throttle.delivered st1 ++
          [(Throttle.caller r', Throttle.Resolved (Insights.CResponse body))])%list)
  /\
  (forall d t', Cache.constructor_cacheDurations !! Throttle.cacheType r = Some d ->
     t + d <= t' ->
     snd (Throttle.dispatch t' r' st1) = Throttle.Executing r' None)
  /\
  (Cache.constructor_cacheDurations !! Throttle.cacheType r = None ->
   forall t', snd (Throttle.dispatch t' r' st1) = Throttle.Executing r' None).
Proof.
  intros Ht Htab Hpt He Hp st1.
  assert (Hpt' : Js.truthy_str (Insights.p_t (Throttle.rq_params r')) = false)
    by (rewrite Hp; exact Hpt).
  assert (Hread : forall t',
            snd (Throttle.dispatch t' r' st1) =
            Throttle.Executing r'
              (fst (Cache.getFromCache t'
                      (Cache.setCache t (Throttle.store st)
                         (Throttle.getCacheKey (Throttle.endpoint r)
                            (Throttle.rq_params r))
                         (Insights.CResponse body) (Throttle.cacheType r))
                      (Throttle.getCacheKey (Throttle.endpoint r)
                         (Throttle.rq_params r))))).
  { intros t'. rewrite (dispatch_reads t' r' st1 Hpt'), He, Hp.
    subst st1. rewrite finish_store. reflexivity. }
  split; [|split].
  - intros d t' Hd Hlt.
    destruct (cache_roundtrip_configured t t' (Throttle.store st)
                (Throttle.getCacheKey (Throttle.endpoint r) (Throttle.rq_params r))
                (Insights.CResponse body) _ d Ht Htab Hd) as [Hhit _].
    assert (Hs : snd (Throttle.dispatch t' r' st1) =
                 Throttle.Executing r' (Some (Insights.CResponse body))).
    { rewrite Hread, (Hhit Hlt). reflexivity. }
    split; [exact Hs|].
    intros t'' o. rewrite Hs.
    destruct (resume_hit t'' r' (Insights.CResponse body) o
                (fst (Throttle.dispatch t' r' st1))) as (st3 & next & Hr & Hdel).
    exists st3, next. split; [exact Hr|]. rewrite Hdel.
    destruct (Throttle.dispatch t' r' st1) as [st2 a] eqn:Ed.
    apply dispatch_spec in Ed as (_ & _ & _ & _ & _ & _ & _ & Hdd & _).
    cbn [fst]. rewrite Hdd. reflexivity.
  - intros d t' Hd Hge.
    destruct (cache_roundtrip_configured t t' (Throttle.store st)
                (Throttle.getCacheKey (Throttle.endpoint r) (Throttle.rq_params r))
                (Insights.CResponse body) _ d Ht Htab Hd) as [_ Hmiss].
    rewrite Hread, (Hmiss Hge). reflexivity.
  - intros Hnone t'. rewrite Hread.
    unfold Cache.getFromCache.
    rewrite expiry_after_set, lookup_insert_eq,
      (duration_of_unconfigured _ _ Htab Hnone).
    reflexivity.
Qed.

Lemma repeated_request_and_the_cache_witness :
  let r' := Throttle.mkRequest "act_1/ads" QueueRules.plain_params "ads" 4 in
  let body := Insights.mkResponse (Some []) in
  snd (Throttle.dispatch 2000 r'
         (snd (Throttle.executeRequest_finish 1000 QueueRules.req_A None
                 (inr body) (Throttle.initial 0)))) =
  Throttle.Executing r' (Some (Insights.CResponse body)).
Proof.
  intros r' body.
  pose proof (repeated_request_and_the_cache (Throttle.initial 0)
                QueueRules.req_A r' body 1000 ltac:(lia) eq_refl eq_refl
                eq_refl eq_refl) as (Hfresh & _).
  destruct (Hfresh 600000 2000 eq_refl ltac:(lia)) as [H _].
  exact H.
Defined.

(** X10.  A cache-busting request (one whose [_t] is set) never reads the
    cache, and the answer it stores is filed under a key that no request
    without [_t] to that endpoint uses: what such a request is served
    afterwards is what it would have been served before, fresh or stale. *)
Theorem cache_busting_leaves_the_cached_answer
    (st : Throttle.state) (rb r : Throttle.request)
    (body : Insights.response) (t : Z) :
  Js.truthy_str (Insights.p_t (Throttle.rq_params rb)) = true ->
  Insights.p_t (Throttle.rq_params r) = None ->
  Throttle.endpoint rb = Throttle.endpoint r ->
  Throttle.dispatch t rb st =
    (Throttle.note_dispatched rb t st, Throttle.Executing rb None) /\
  Throttle.getCacheKey (Throttle.endpoint rb) (Throttle.rq_params rb) <>
    Throttle.getCacheKey (Throttle.endpoint r) (Throttle.rq_params r) /\
  forall t1 t2,
    snd (Throttle.dispatch t2 r
           (snd (Throttle.executeRequest_finish t1 rb None (inr body)
                   (fst (Throttle.dispatch t rb st))))) =
    snd (Throttle.dispatch t2 r st).
Proof.
  intros Hb Hr He.
  assert (Hkey : Throttle.getCacheKey (Throttle.endpoint rb)
                   (Throttle.rq_params rb) <>
                 Throttle.getCacheKey (Throttle.endpoint r)
                   (Throttle.rq_params r)).
  { rewrite He. apply cache_key_separates_t; [exact Hr|].
    intros Hn. rewrite Hn in Hb. discriminate. }
  split; [apply dispatch_bypasses, Hb|]. split; [exact Hkey|].
  intros t1 t2.
  assert (Hr' : Js.truthy_str (Insights.p_t (Throttle.rq_params r)) = false)
    by (rewrite Hr; reflexivity).
  rewrite !dispatch_reads by exact Hr'. f_equal.
  rewrite finish_store, (dispatch_bypasses t rb st Hb).
  cbn [fst Throttle.store Throttle.note_dispatched].
  apply read_depends_on_key.
  - rewrite expiry_after_set, lookup_insert_ne by exact Hkey. reflexivity.
  - rewrite cache_after_set, lookup_insert_ne by exact Hkey. reflexivity.
Qed.

Lemma cache_busting_leaves_the_cached_answer_witness :
  let rb :=
    Throttle.mkRequest "act_1/ads"
      (Insights.with_t QueueRules.plain_params (Some "1700000000000"))
      "ads" 7 in
  snd (Throttle.dispatch 2000 QueueRules.req_A
         (snd (Throttle.executeRequest_finish 1040 rb None
                 (inr (Insights.mkResponse (Some [])))
                 (fst (Throttle.dispatch 1000 rb (Throttle.initial 0)))))) =
  snd (Throttle.dispatch 2000 QueueRules.req_A (Throttle.initial 0)).
Proof.
  intros rb.
  exact (proj2 (proj2 (cache_busting_leaves_the_cached_answer
                         (Throttle.initial 0) rb QueueRules.req_A
                         (Insights.mkResponse (Some [])) 1000
                         eq_refl eq_refl eq_refl)) 1040 2000).
Defined.

(** ** Bounds and monotonicity of the performance score *)

Section ScoreFacts.

Import Js Scoring.
Local Open Scope Q_scope.

Lemma Math_round_mono (a b : Q) : a <= b -> (Math_round a <= Math_round b)%Z.
Proof.
  intros H. unfold Math_round. apply Qfloor_resp_le. lra.
Qed.

Lemma Math_round_upper (q : Q) : q <= 100 -> (Math_round q <= 100)%Z.
Proof. intros H. apply (Math_round_mono q 100) in H. exact H. Qed.

Lemma Math_round_lower (q : Q) : 0 <= q -> (0 <= Math_round q)%Z.
Proof. intros H. apply (Math_round_mono 0 q) in H. exact H. Qed.

Lemma Math_min_mono (a b c : Q) : a <= b -> Math_min a c <= Math_min b c.
Proof.
  intros H. unfold Math_min.
  destruct (Qle_bool a c) eqn:E1; destruct (Qle_bool b c) eqn:E2;
    try apply (leb_true a c) in E1; try apply (leb_false a c) in E1;
    try apply (leb_true b c) in E2; try apply (leb_false b c) in E2; lra.
Qed.

Lemma Math_min_bounds (a c : Q) :
  Math_min a c <= c /\ (0 <= a -> 0 <= c -> 0 <= Math_min a c).
Proof.
  unfold Math_min. destruct (Qle_bool a c) eqn:E.
  - apply Qle_bool_iff in E. split; [lra | auto].
  - split; [lra | auto].
Qed.

Lemma inject_Z_range (z lo hi : Z) :
  (lo <= z <= hi)%Z -> inject_Z lo <= inject_Z z <= inject_Z hi.
Proof. intros [H1 H2]. split; rewrite <- Zle_Qle; assumption. Qed.

Lemma roas_chain_range (q : Q) : (0 <= roas_chain q <= 100)%Z.
Proof. unfold roas_chain. repeat cmp_step; lia. Qed.

Lemma calculateROASScore_range (ins : insights) (s : Q) :
  (0 <= calculateROASScore ins s <= 100)%Z.
Proof.
  unfold calculateROASScore. destruct (eqb s 0); [lia|].
  apply roas_chain_range.
Qed.

Lemma calculateCTRScore_range (q : Q) : (0 <= calculateCTRScore q <= 100)%Z.
Proof. unfold calculateCTRScore. repeat cmp_step; lia. Qed.

Lemma calculateCPMScore_range (q : Q) : (0 <= calculateCPMScore q <= 100)%Z.
Proof. unfold calculateCPMScore. repeat cmp_step; lia. Qed.

Lemma calculateCPCScore_range (q : Q) (c : Z) :
  (0 <= calculateCPCScore q c <= 100)%Z.
Proof.
  unfold calculateCPCScore. destruct (c =? 0)%Z; [lia|].
  repeat cmp_step; lia.
Qed.

(** The click rate grows with the clicks and shrinks with the
    impressions. *)
Lemma click_rate_mono (c1 c2 i1 i2 : Z) :
  (0 <= c1 <= c2)%Z -> (0 < i2 <= i1)%Z ->
  inject_Z c1 / inject_Z i1 <= inject_Z c2 / inject_Z i2.
Proof.
  intros [H0 Hc] [Hi0 Hi].
  assert (P1 : 0 < inject_Z i1)
    by (change 0 with (inject_Z 0); rewrite <- Zlt_Qlt; lia).
  assert (P2 : 0 < inject_Z i2)
    by (change 0 with (inject_Z 0); rewrite <- Zlt_Qlt; lia).
  apply Qle_shift_div_r; [exact P1|].
  assert (E : inject_Z c2 / inject_Z i2 * inject_Z i1 ==
              inject_Z c2 * inject_Z i1 / inject_Z i2) by (field; lra).
  rewrite E.
  apply Qle_shift_div_l; [exact P2|].
  rewrite <- !inject_Z_mult, <- Zle_Qle. nia.
Qed.

Lemma click_rate_nonneg (c i : Z) :
  (0 <= c)%Z -> (0 < i)%Z -> 0 <= inject_Z c / inject_Z i.
Proof.
  intros Hc Hi.
  assert (P : 0 < inject_Z i)
    by (change 0 with (inject_Z 0); rewrite <- Zlt_Qlt; lia).
  apply Qle_shift_div_l; [exact P|].
  ring_simplify. change 0 with (inject_Z 0). rewrite <- Zle_Qle. lia.
Qed.

Lemma calculateClickScore_unfold (clicks impressions : Z) :
  (1 <= clicks)%Z -> impressions <> 0%Z ->
  calculateClickScore clicks impressions =
  Math_round
    (Math_min (inject_Z clicks / inject_Z impressions * 100 * 20) 100 * 0.7 +
     inject_Z (ClickParts.click_volume clicks) * 0.3).
Proof.
  intros Hc Hi. unfold calculateClickScore, ClickParts.click_volume.
  destruct (impressions =? 0)%Z eqn:E; [lia|].
  repeat match goal with
         | |- context [(?a <=? clicks)%Z] =>
             destruct (Z.leb_spec a clicks); try lia
         end; reflexivity.
Qed.

Lemma calculateClickScore_zero (clicks impressions : Z) :
  (clicks < 1)%Z -> calculateClickScore clicks impressions = 0%Z.
Proof.
  intros Hc. unfold calculateClickScore.
  destruct (impressions =? 0)%Z; [reflexivity|].
  repeat match goal with
         | |- context [(?a <=? clicks)%Z] =>
             destruct (Z.leb_spec a clicks); try lia
         end; reflexivity.
Qed.

Lemma click_volume_mono (c1 c2 : Z) :
  (c1 <= c2)%Z -> (ClickParts.click_volume c1 <= ClickParts.click_volume c2)%Z.
Proof.
  intros H. unfold ClickParts.click_volume.
  repeat match goal with
         | |- context [(?a <=? ?c)%Z] => destruct (Z.leb_spec a c); try lia
         end.
Qed.

Lemma click_volume_range (c : Z) : (20 <= ClickParts.click_volume c <= 100)%Z.
Proof.
  unfold ClickParts.click_volume.
  repeat match goal with
         | |- context [(?a <=? ?c)%Z] => destruct (Z.leb_spec a c); try lia
         end.
Qed.

Lemma calculateClickScore_upper (clicks impressions : Z) :
  (calculateClickScore clicks impressions <= 100)%Z.
Proof.
  destruct (Z.eq_dec impressions 0%Z) as [-> | Hi]; [cbn; lia|].
  destruct (Z_lt_le_dec clicks 1%Z) as [Hc | Hc].
  - rewrite calculateClickScore_zero by exact Hc. lia.
  - rewrite calculateClickScore_unfold by assumption.
    apply Math_round_upper.
    pose proof (proj1 (Math_min_bounds
      (inject_Z clicks / inject_Z impressions * 100 * 20) 100)) as Hm.
    pose proof (inject_Z_range _ _ _ (click_volume_range clicks)) as [_ Hv].
    change (inject_Z 100) with 100 in Hv. lra.
Qed.

Lemma calculateClickScore_lower (clicks impressions : Z) :
  (0 <= impressions)%Z -> (0 <= calculateClickScore clicks impressions)%Z.
Proof.
  intros H0.
  destruct (Z.eq_dec impressions 0%Z) as [-> | Hi]; [cbn; lia|].
  destruct (Z_lt_le_dec clicks 1%Z) as [Hc | Hc].
  - rewrite calculateClickScore_zero by exact Hc. lia.
  - rewrite calculateClickScore_unfold by assumption.
    apply Math_round_lower.
    assert (Hr : 0 <= inject_Z clicks / inject_Z impressions)
      by (apply click_rate_nonneg; lia).
    pose proof (proj2 (Math_min_bounds
      (inject_Z clicks / inject_Z impressions * 100 * 20) 100)) as Hm.
    pose proof (inject_Z_range _ _ _ (click_volume_range clicks)) as [Hv _].
    change (inject_Z 20) with 20 in Hv.
    assert (0 <= Math_min (inject_Z clicks / inject_Z impressions * 100 * 20) 100)
      by (apply Hm; lra).
    lra.
Qed.

End ScoreFacts.

(** X11.  The performance score never exceeds 100, and it is never
    negative when the impression count is not negative. *)
Theorem performance_score_is_bounded (ins : Js.insights) :
  Scoring.calculatePerformanceScore ins <= 100 /\
  (0 <= Js.int_or0 (Js.impressions ins) ->
   0 <= Scoring.calculatePerformanceScore ins).
Proof.
  unfold Scoring.calculatePerformanceScore.
  destruct (Js.eqb _ 0 || _)%bool; [split; lia|].
  pose proof (calculateROASScore_range ins (Js.num_or0 (Js.spend ins))) as Hr.
  pose proof (calculateCTRScore_range (Js.num_or0 (Js.ctr ins))) as Hc.
  pose proof (calculateCPMScore_range (Js.num_or0 (Js.cpm ins))) as Hm.
  pose proof (calculateCPCScore_range (Js.num_or0 (Js.cpc ins))
                (Js.int_or0 (Js.clicks ins))) as Hp.
  pose proof (calculateClickScore_upper (Js.int_or0 (Js.clicks ins))
                (Js.int_or0 (Js.impressions ins))) as Hk.
  apply inject_Z_range in Hr, Hc, Hm, Hp. rewrite Zle_Qle in Hk.
  change (inject_Z 0) with 0%Q in *. change (inject_Z 100) with 100%Q in *.
  split.
  - apply Math_round_upper.
    apply Math_min_bounds.
  - intros Hi. apply calculateClickScore_lower
      with (clicks := Js.int_or0 (Js.clicks ins)) in Hi.
    rewrite Zle_Qle in Hi. change (inject_Z 0) with 0%Q in Hi.
    apply Math_round_lower.
    apply Math_min_bounds; lra.
Qed.

Lemma performance_score_is_bounded_witness :
  0 <= Scoring.calculatePerformanceScore
         (Js.mkInsights (Some 75.5%Q) (Some 5000%Q) (Some 120%Q) (Some 2.4%Q)
            (Some 8%Q) (Some 0.4%Q) None
            (Some [Js.mkAction "purchase" (Some 900%Q)]) None None) <= 100.
Proof.
  pose proof (performance_score_is_bounded
                (Js.mkInsights (Some 75.5%Q) (Some 5000%Q) (Some 120%Q)
                   (Some 2.4%Q) (Some 8%Q) (Some 0.4%Q) None
                   (Some [Js.mkAction "purchase" (Some 900%Q)]) None None))
    as [Hu Hl].
  split; [|exact Hu].
  apply Hl. vm_compute. discriminate.
Defined.

Section ScoreOrder.

Import Js Scoring.
Local Open Scope Q_scope.

Lemma calculateClickScore_mono (c1 c2 i1 i2 : Z) :
  (c1 <= c2)%Z -> (0 < i2 <= i1)%Z ->
  (calculateClickScore c1 i1 <= calculateClickScore c2 i2)%Z.
Proof.
  intros Hc Hi.
  destruct (Z_lt_le_dec c1 1%Z) as [H1 | H1].
  - rewrite (calculateClickScore_zero c1 i1 H1).
    apply calculateClickScore_lower. lia.
  - rewrite !calculateClickScore_unfold by lia.
    apply Math_round_mono.
    assert (Hrate : inject_Z c1 / inject_Z i1 * 100 * 20 <=
                    inject_Z c2 / inject_Z i2 * 100 * 20).
    { pose proof (click_rate_mono c1 c2 i1 i2 ltac:(lia) Hi). lra. }
    apply (Math_min_mono _ _ 100) in Hrate.
    pose proof (click_volume_mono c1 c2 Hc) as Hv.
    rewrite Zle_Qle in Hv. lra.
Qed.





End ScoreOrder.

(** X12.  The click sub-score is monotone: for a positive impression count,
    more clicks never lower it and more impressions for the same clicks
    never raise it; and it always lies between 0 and 100. *)
Theorem click_subscore_monotone (c1 c2 i1 i2 : Z) :
  c1 <= c2 -> 0 < i2 <= i1 ->
  Scoring.calculateClickScore c1 i1 <= Scoring.calculateClickScore c2 i2 /\
  0 <= Scoring.calculateClickScore c1 i1 /\
  Scoring.calculateClickScore c2 i2 <= 100.
Proof.
  intros Hc Hi. split; [apply calculateClickScore_mono; assumption|].
  split; [apply calculateClickScore_lower; lia|].
  apply calculateClickScore_upper.
Qed.

Lemma click_subscore_monotone_witness :
  Scoring.calculateClickScore 12 4000 <= Scoring.calculateClickScore 30 2500.
Proof.
  apply (click_subscore_monotone 12 30 4000 2500); lia.
Defined.



(** ** The two methods named [getAdInsights], continued *)

Section InsightCalls.

Variable makeRequest :
  string -> Insights.params -> string -> string + Insights.response.

Lemma batch_loop_never_accepts (endpoint : string)
    (range : Insights.timeRange) (approaches : list Insights.approach) :
  Insights.getAdInsights_batch_loop makeRequest endpoint range approaches =
  (map Insights.a_name approaches, None).
Proof.
  induction approaches as [|a rest IH]; [reflexivity|].
  cbn [Insights.getAdInsights_batch_loop map]. rewrite IH.
  destruct (makeRequest _ _ _) as [e|resp]; [reflexivity|].
  destruct (Insights.r_data resp) as [[|d l]|]; try reflexivity.
  destruct (Insights.isDateSpecific d range); reflexivity.
Qed.

Lemma getFromCache_durations {V : Type} now (st : Cache.state V) k :
  Cache.cacheDurations (snd (Cache.getFromCache now st k)) =
  Cache.cacheDurations st.
Proof.
  destruct (getFromCache_cases now st k)
    as [(z & _ & _ & _ & ->) | [(z & _ & _ & _ & ->) | (_ & ->)]];
    reflexivity.
Qed.

End InsightCalls.

(** X14.  The batch [getAdInsights] never returns an ad: it requests all
    four variants whatever the upstream answers, and then resolves to the
    empty list or rejects. *)
Theorem batch_getAdInsights_never_returns_an_ad
    (makeRequest : string -> Insights.params -> string ->
                   string + Insights.response)
    (listed_ads : Batch.thrown + list AdsData.ad)
    (cal : Insights.calendar) (adAccountId : string)
    (dateRange : option string) (limit : option Z)
    (startDate endDate : option string) :
  fst (Batch.getAdInsights makeRequest listed_ads cal adAccountId
         dateRange limit startDate endDate) =
    ["direct_insights"; "direct_insights_1d_view"; "direct_insights_7d_view";
     "direct_insights_preset"] /\
  (forall ads,
     snd (Batch.getAdInsights makeRequest listed_ads cal adAccountId
            dateRange limit startDate endDate) = inr ads -> ads = []) /\
  (forall listed kept rest,
     listed_ads = inr listed ->
     Batch.processBasicAdsData listed = kept :: rest ->
     snd (Batch.getAdInsights makeRequest listed_ads cal adAccountId
            dateRange limit startDate endDate) = inl "TypeError"%string).
Proof.
  unfold Batch.getAdInsights. rewrite batch_loop_never_accepts.
  cbn [fst snd map Insights.approaches_batch Insights.a_name].
  split; [reflexivity|]. split.
  - intros ads. destruct listed_ads as [e|listed]; cbn [Batch.bind];
      [discriminate|].
    rewrite batch_fallback_never_allocates.
    destruct (Batch.processBasicAdsData listed); [|discriminate].
    intros [= <-]. reflexivity.
  - intros listed kept rest -> Hk. cbn [Batch.bind].
    rewrite batch_fallback_never_allocates, Hk. reflexivity.
Qed.

Lemma batch_getAdInsights_never_returns_an_ad_witness :
  snd (Batch.getAdInsights InsightExamples.picky_upstream
         (inr AllocationExamples.two_ads) InsightExamples.march_9 "act_1"
         (Some "today"%string) (Some 50) None None) =
  inl "TypeError"%string.
Proof.
  apply (proj2 (proj2 (batch_getAdInsights_never_returns_an_ad
                         InsightExamples.picky_upstream
                         (inr AllocationExamples.two_ads)
                         InsightExamples.march_9 "act_1"
                         (Some "today"%string) (Some 50) None None))
           AllocationExamples.two_ads
           (Batch.mkBasic (AllocationExamples.ad_with_spend "1201"
                             "Blue shoes promo" 30%Q) None)
           [Batch.mkBasic (AllocationExamples.ad_with_spend "1202"
                             "Red shoes promo" 70%Q) None]);
    reflexivity.
Defined.

(** The entry that the per-ad [getAdInsights] writes has no expiry that
    a read accepts, so the next call finds nothing. *)
Lemma per_ad_call_goes_upstream_again
    (makeRequest : string -> Insights.params -> string ->
                   string + Insights.response)
    (now now' t t' : Z) (st st1 : Cache.state Insights.cached)
    (adId : string) (dateRange : option string)
    (tried : list string) (v : Insights.cached) :
  Cache.cacheDurations st = Cache.constructor_cacheDurations ->
  Insights.getAdInsights makeRequest now now' st adId dateRange None =
    (tried, Some v, st1) ->
  tried <> [] ->
  exists st2,
    Insights.getAdInsights makeRequest t t' st1 adId dateRange None =
      (tried, Some v, st2).
Proof.
  intros Htab Hcall Htried.
  unfold Insights.getAdInsights in Hcall |- *.
  cbn [Js.truthy_str negb] in Hcall |- *.
  set (key := ("ad_insights_" ++ adId ++ "_" ++ default "today" dateRange)%string)
    in *.
  pose proof (getFromCache_durations now st key) as Hdur.
  destruct (Cache.getFromCache now st key) as [[c|] s1];
    [injection Hcall as <- _ _; contradiction|].
  cbn [snd] in Hdur.
  destruct (Insights.getAdInsights_loop makeRequest _ None _)
    as [tr [[n p]|]] eqn:Eloop; [|discriminate].
  injection Hcall as <- <- <-.
  assert (Hnan : Cache.cacheExpiry
                   (Cache.setCache now' s1 key (Insights.CProcessed p) "300")
                   !! key = Some Cache.NaN).
  { rewrite expiry_after_set, lookup_insert_eq.
    rewrite (duration_of_unconfigured s1 "300"); [reflexivity | | reflexivity].
    rewrite Hdur. exact Htab. }
  assert (Hmiss : forall s : Cache.state Insights.cached,
            Cache.cacheExpiry s !! key = Some Cache.NaN ->
            forall time, Cache.getFromCache time s key = (None, s)).
  { intros s Hs time. unfold Cache.getFromCache. rewrite Hs. reflexivity. }
  rewrite (Hmiss _ Hnan t).
  eexists. reflexivity.
Qed.

(** X15.  The per-ad [getAdInsights] never answers from its own result
    cache: after a call that obtained its value upstream, a later call for
    the same ad and date range, at any time, requests the same variants
    upstream again. *)
Theorem per_ad_result_is_never_served_from_cache
    (makeRequest : string -> Insights.params -> string ->
                   string + Insights.response)
    (now now' t t' : Z) (st st1 : Cache.state Insights.cached)
    (adId : string) (dateRange : option string)
    (tried : list string) (v : Insights.cached) :
  Cache.cacheDurations st = Cache.constructor_cacheDurations ->
  Insights.getAdInsights makeRequest now now' st adId dateRange None =
    (tried, Some v, st1) ->
  tried <> [] ->
  exists st2,
    Insights.getAdInsights makeRequest t t' st1 adId dateRange None =
      (tried, Some v, st2).
Proof.
  intros Htab Hcall Htried.
  exact (per_ad_call_goes_upstream_again makeRequest now now' t t' st st1
           adId dateRange tried v Htab Hcall Htried).
Qed.

Lemma per_ad_result_is_never_served_from_cache_witness :
  let first :=
    Insights.getAdInsights InsightExamples.week_upstream 1000 1040
      Cache.initial "1201" (Some "today"%string) None in
  fst first =
    (["date_preset_today_1d_click"%string],
     Some (Insights.CProcessed
             (Insights.processAdInsightsData InsightExamples.week_record))) /\
  exists st2,
    Insights.getAdInsights InsightExamples.week_upstream 2000 2040
      (snd first) "1201" (Some "today"%string) None =
    (["date_preset_today_1d_click"%string],
     Some (Insights.CProcessed
             (Insights.processAdInsightsData InsightExamples.week_record)),
     st2).
Proof.
  intros first.
  assert (Hfst : fst first =
    (["date_preset_today_1d_click"%string],
     Some (Insights.CProcessed
             (Insights.processAdInsightsData InsightExamples.week_record))))
    by (vm_compute; reflexivity).
  split; [exact Hfst|].
  destruct first as [[tried v] st1] eqn:E. cbn [fst snd] in Hfst |- *.
  injection Hfst as -> ->.
  apply (per_ad_result_is_never_served_from_cache
           InsightExamples.week_upstream 1000 1040 2000 2040
           Cache.initial st1 "1201" (Some "today"%string) _ _ eq_refl E).
  discriminate.
Defined.

(** ** Processing of insight records and of the ads list *)

Section ProcessingFacts.

Import Js.

Lemma prefix_includes (s sub : string) :
  String.prefix sub s = true -> includes s sub = true.
Proof. intros P. destruct s; cbn [includes]; rewrite P; reflexivity. Qed.

Lemma includes_tail (c : ascii) (sub s : string) :
  includes s (String c sub) = true -> includes s sub = true.
Proof.
  induction s as [|x s IH]; cbn [includes].
  - cbn. discriminate.
  - destruct (String.prefix (String c sub) (String x s)) eqn:P.
    + intros _. cbn in P. destruct (ascii_dec c x); [|discriminate].
      destruct (String.prefix sub (String x s)); [reflexivity|].
      apply prefix_includes, P.
    + intros H. apply IH in H.
      destruct (String.prefix sub (String x s)); [reflexivity | exact H].
Qed.

Lemma omni_purchase_mentions_purchase (s : string) :
  includes s "purchase" = false -> includes s "omni_purchase" = false.
Proof.
  intros H. destruct (includes s "omni_purchase") eqn:E; [|reflexivity].
  do 5 apply includes_tail in E. congruence.
Qed.

Lemma strip_keeps_others (l : list action) :
  List.filter AdsData.not_purchase l =
  List.filter (fun a => negb (AdsData.mentions_purchase a)) l.
Proof.
  induction l as [|a l IH]; [reflexivity|].
  cbn [List.filter]. unfold AdsData.not_purchase at 1.
  unfold AdsData.mentions_purchase at 1.
  destruct (includes (action_type a) "purchase") eqn:E; cbn [negb andb].
  - exact IH.
  - rewrite (omni_purchase_mentions_purchase _ E). cbn [negb].
    rewrite IH. reflexivity.
Qed.

(** What [allocate] returns: the entries of the record that do not mention
    a purchase, in their order, followed by at most one entry of type
    [purchase]. *)
Lemma allocate_shape (tot : option AdsData.totals) (ins : insights) :
  let others (l : option (list action)) :=
    List.filter (fun a => negb (AdsData.mentions_purchase a)) (default [] l) in
  (exists added,
     fst (AdsData.allocate tot ins) = others (actions ins) ++ added /\
     (added = [] \/ exists v, added = [mkAction "purchase" v])) /\
  (exists added,
     snd (AdsData.allocate tot ins) = others (action_values ins) ++ added /\
     (added = [] \/ exists v, added = [mkAction "purchase" v])).
Proof.
  intros others. unfold AdsData.allocate. rewrite !strip_keeps_others.
  fold (others (actions ins)) (others (action_values ins)).
  assert (Hnone : forall l : list action,
            exists added, l = l ++ added /\
              (added = [] \/ exists v, added = [mkAction "purchase" v])).
  { intros l. exists []. rewrite app_nil_r. auto. }
  destruct tot as [t|]; [|split; apply Hnone].
  destruct (gtb (AdsData.totalAdSpend t) 0 && gtb (num_or0 (spend ins)) 0);
    [|split; apply Hnone].
  destruct (0 <? _); [|split; apply Hnone].
  cbn [fst snd]. split; [eauto|].
  destruct (gtb _ 0); [eauto | apply Hnone].
Qed.


Lemma app_self_nil {A : Type} (l a : list A) : l = l ++ a -> a = [].
Proof.
  intros H. apply (List.app_inv_head l). rewrite app_nil_r. symmetry. exact H.
Qed.


End ProcessingFacts.

(** X16.  A record without a [link_click] action is processed as having no
    clicks, whatever its [clicks] field says, and then scores at most 73:
    the click and the cost-per-click parts of the score are lost. *)
Theorem score_without_link_clicks_is_capped (d : Js.insights) :
  Insights.find_link_click (default [] (Js.actions d)) = None ->
  Js.clicks (Insights.metrics (Insights.processAdInsightsData d)) = Some 0%Q /\
  Insights.performance_score (Insights.processAdInsightsData d) <= 73.
Proof.
  intros Hnone. unfold Insights.processAdInsightsData. rewrite Hnone.
  cbn [Insights.metrics Insights.performance_score Js.clicks].
  split; [reflexivity|].
  unfold Scoring.calculatePerformanceScore.
  cbn [Js.spend Js.impressions Js.clicks Js.ctr Js.cpm Js.cpc].
  destruct (Js.eqb _ 0 || _)%bool; [lia|].
  change (Js.int_or0 (Some (inject_Z 0))) with 0.
  rewrite (calculateClickScore_zero 0) by lia.
  assert (Hcpc : forall q, Scoring.calculateCPCScore q 0 = 0) by reflexivity.
  rewrite Hcpc.
  match goal with
  | |- context [Scoring.calculateROASScore ?i ?s] =>
      pose proof (calculateROASScore_range i s) as Hr
  end.
  match goal with
  | |- context [Scoring.calculateCTRScore ?q] =>
      pose proof (calculateCTRScore_range q) as Hc
  end.
  match goal with
  | |- context [Scoring.calculateCPMScore ?q] =>
      pose proof (calculateCPMScore_range q) as Hm
  end.
  apply inject_Z_range in Hr, Hc, Hm.
  change (inject_Z 0) with 0%Q in *. change (inject_Z 100) with 100%Q in *.
  apply Z.le_trans with (Js.Math_round (Js.Math_min 73 100));
    [|vm_compute; discriminate].
  apply Math_round_mono, Math_min_mono. lra.
Qed.

Lemma score_without_link_clicks_is_capped_witness :
  Insights.performance_score
    (Insights.processAdInsightsData
       (Js.mkInsights (Some 75.5%Q) (Some 5000%Q) (Some 120%Q) (Some 2.4%Q)
          (Some 8%Q) (Some 0.4%Q)
          (Some [Js.mkAction "post_engagement" (Some 300%Q)])
          (Some [Js.mkAction "purchase" (Some 900%Q)]) None None)) <= 73.
Proof.
  apply score_without_link_clicks_is_capped. reflexivity.
Defined.


(** X18.  The scores and the selection of [processAdsData] do not depend
    on the account conversion data: the ads kept, their order and their
    performance scores are the same with and without it, each score being
    that of the ad's own first insight record. *)
Theorem allocation_does_not_change_scores
    (ads : list AdsData.ad) (accountConversionData : option Js.insights) :
  map AdsData.e_ad (AdsData.processAdsData ads accountConversionData) =
    List.filter (fun a => negb (AdsData.looks_like_adset a)) ads /\
  map AdsData.e_performance_score
      (AdsData.processAdsData ads accountConversionData) =
    map AdsData.e_performance_score (AdsData.processAdsData ads None) /\
  Forall (fun e =>
            AdsData.e_performance_score e =
            Scoring.calculatePerformanceScore
              (AdsData.first_insights (AdsData.e_ad e)))
         (AdsData.processAdsData ads accountConversionData).
Proof.
  unfold AdsData.processAdsData.
  generalize (option_map
                (AdsData.compute_totals
                   (List.filter (fun a => negb (AdsData.looks_like_adset a)) ads))
                accountConversionData).
  cbn [option_map].
  generalize (List.filter (fun a => negb (AdsData.looks_like_adset a)) ads).
  intros l tot. split; [|split].
  - induction l as [|a l IH]; [reflexivity|].
    cbn [map]. rewrite IH. destruct (AdsData.allocate tot _). reflexivity.
  - induction l as [|a l IH]; [reflexivity|].
    cbn [map]. rewrite IH.
    destruct (AdsData.allocate tot _), (AdsData.allocate None _). reflexivity.
  - apply List.Forall_forall. intros e He.
    apply in_map_iff in He as (a & <- & _).
    destruct (AdsData.allocate tot _). reflexivity.
Qed.

(** X19.  [processAdsData] lets no purchase figure of the upstream record
    through: in the [actions] and the [action_values] of every ad it
    returns, the entries that do not mention a purchase are those of the
    ad's record, in their order, and they are followed by at most one
    entry, of type [purchase], which the function has allocated; without
    account data there is none. *)
Theorem upstream_purchase_entries_are_dropped
    (ads : list AdsData.ad) (accountConversionData : option Js.insights)
    (e : AdsData.enriched) :
  In e (AdsData.processAdsData ads accountConversionData) ->
  let others (l : option (list Js.action)) :=
    List.filter (fun a => negb (AdsData.mentions_purchase a)) (default [] l) in
  let record := AdsData.first_insights (AdsData.e_ad e) in
  (exists added,
     Js.actions (AdsData.e_metrics e) = Some (others (Js.actions record) ++ added)
     /\ (added = [] \/ exists v, added = [Js.mkAction "purchase" v])
     /\ (accountConversionData = None -> added = [])) /\
  (exists added,
     Js.action_values (AdsData.e_metrics e) =
       Some (others (Js.action_values record) ++ added)
     /\ (added = [] \/ exists v, added = [Js.mkAction "purchase" v])
     /\ (accountConversionData = None -> added = [])).
Proof.
  intros Hin others record. unfold AdsData.processAdsData in Hin.
  apply in_map_iff in Hin as (a & He & _).
  set (tot := option_map _ accountConversionData) in He.
  destruct (AdsData.allocate tot (AdsData.first_insights a))
    as [acts vals] eqn:E.
  subst e record.
  cbn [AdsData.e_metrics AdsData.e_ad Js.actions Js.action_values].
  destruct (allocate_shape tot (AdsData.first_insights a))
    as [(add1 & H1 & S1) (add2 & H2 & S2)].
  rewrite E in H1, H2. cbn [fst snd] in H1, H2.
  unfold others.
  split; [exists add1 | exists add2]; (split; [congruence|]);
    (split; [assumption|]); intros ->; subst tot; cbn [option_map] in E;
    unfold AdsData.allocate in E; rewrite !strip_keeps_others in E;
    injection E as E1 E2.
  - rewrite <- E1 in H1. exact (app_self_nil _ _ H1).
  - rewrite <- E2 in H2. exact (app_self_nil _ _ H2).
Qed.

Lemma upstream_purchase_entries_are_dropped_witness :
  let lifetime :=
    AdsData.mkAd "1203" (Some "Green shoes promo")
      (Some [Js.mkInsights (Some 40%Q) (Some 900%Q) (Some 31%Q) None None None
               (Some [Js.mkAction "link_click" (Some 25%Q);
                      Js.mkAction "omni_purchase" (Some 12%Q)])
               (Some [Js.mkAction "purchase" (Some 640%Q)]) None None]) in
  let e := nth 0 (AdsData.processAdsData [lifetime] None)
             (AdsData.mkEnriched (AdsData.mkAd EmptyString None None)
                Js.empty_insights 0) in
  In e (AdsData.processAdsData [lifetime] None) /\
  Js.actions (AdsData.e_metrics e) =
    Some [Js.mkAction "link_click" (Some 25%Q)] /\
  Js.action_values (AdsData.e_metrics e) = Some [].
Proof.
  intros lifetime e.
  assert (Hin : In e (AdsData.processAdsData [lifetime] None))
    by (left; reflexivity).
  split; [exact Hin|].
  destruct (upstream_purchase_entries_are_dropped [lifetime] None e Hin)
    as [(add1 & H1 & _ & N1) (add2 & H2 & _ & N2)].
  rewrite (N1 eq_refl) in H1. rewrite (N2 eq_refl) in H2.
  split; [exact H1 | exact H2].
Defined.

(** X20.  The handler of [GET /ads/:adId/insights] marks its answer as
    cached whenever [_t] is absent, also when the data were requested
    upstream: a request repeated after one that obtained its data upstream
    requests the same variants again and is still marked as cached. *)
Theorem cached_flag_is_set_on_upstream_data
    (makeRequest : string -> Insights.params -> string ->
                   string + Insights.response)
    (listed_ads : Batch.thrown + list AdsData.ad)
    (cal : Insights.calendar) (adAccountId : string)
    (now now' t t' : Z) (st st1 : Cache.state Insights.cached)
    (adId dateRange : string) (tried : list string) (v : Insights.cached) :
  Cache.cacheDurations st = Cache.constructor_cacheDurations ->
  Class.route_ad_id_insights makeRequest listed_ads cal adAccountId now now'
    st adId dateRange Class.VUndefined = Class.RanPerAd tried (Some v) st1 ->
  tried <> [] ->
  Routes.meta_cached Class.VUndefined = true /\
  exists st2,
    Class.route_ad_id_insights makeRequest listed_ads cal adAccountId t t'
      st1 adId dateRange Class.VUndefined = Class.RanPerAd tried (Some v) st2.
Proof.
  intros Htab Hcall Htried. split; [reflexivity|].
  unfold Class.route_ad_id_insights, Class.call_getAdInsights in Hcall |- *.
  assert (Class.prototype !! "getAdInsights" = Some Class.PerAdGetAdInsights)
    as Hproto by (vm_compute; reflexivity).
  rewrite Hproto in Hcall |- *.
  cbn [nth Class.to_text Class.as_text_arg] in Hcall |- *.
  destruct (Insights.getAdInsights makeRequest now now' st adId
              (Some dateRange) None) as [[tr r] s1] eqn:E.
  injection Hcall as -> -> ->.
  destruct (per_ad_call_goes_upstream_again makeRequest now now' t t' st st1
              adId (Some dateRange) tried v Htab E Htried) as [st2 H2].
  exists st2. rewrite H2. reflexivity.
Qed.

Lemma cached_flag_is_set_on_upstream_data_witness :
  let first :=
    Insights.getAdInsights InsightExamples.week_upstream 1000 1040
      Cache.initial "1201" (Some "today"%string) None in
  exists st2,
    Class.route_ad_id_insights InsightExamples.week_upstream
      (inr []) InsightExamples.march_9 "act_1" 2000 2040 (snd first)
      "1201" "today" Class.VUndefined =
    Class.RanPerAd ["date_preset_today_1d_click"%string]
      (Some (Insights.CProcessed
               (Insights.processAdInsightsData InsightExamples.week_record)))
      st2.
Proof.
  intros first.
  assert (Hfst : fst first =
    (["date_preset_today_1d_click"%string],
     Some (Insights.CProcessed
             (Insights.processAdInsightsData InsightExamples.week_record))))
    by (vm_compute; reflexivity).
  subst first.
  destruct (Insights.getAdInsights InsightExamples.week_upstream 1000 1040
              Cache.initial "1201" (Some "today"%string) None)
    as [[tried v] st1] eqn:E.
  cbn [fst snd] in Hfst |- *.
  injection Hfst as -> ->.
  refine (proj2 (cached_flag_is_set_on_upstream_data
                   InsightExamples.week_upstream (inr [])
                   InsightExamples.march_9 "act_1" 1000 1040 2000 2040
                   Cache.initial st1 "1201" "today" _ _ eq_refl _ _));
    [|discriminate].
  unfold Class.route_ad_id_insights, Class.call_getAdInsights.
  assert (Class.prototype !! "getAdInsights" = Some Class.PerAdGetAdInsights)
    as -> by (vm_compute; reflexivity).
  cbn [nth Class.to_text Class.as_text_arg].
  rewrite E. reflexivity.
Defined.

(** ** What every run of the queue maintains *)

Section ReachableFacts.

Import Throttle Reachable.

Lemma setCache_keeps_store {V : Type} now (c : Cache.state V) k (v : V) cat :
  Cache.cacheDurations c = Cache.constructor_cacheDurations /\
  CacheAdmin.consistent c ->
  Cache.cacheDurations (Cache.setCache now c k v cat) =
    Cache.constructor_cacheDurations /\
  CacheAdmin.consistent (Cache.setCache now c k v cat).
Proof.
  intros [Htab [Hmem Hfile]]. split.
  - unfold Cache.setCache. cbn. destruct (_ =? 0); exact Htab.
  - split; [apply setCache_same_keys, Hmem|].
    intros c' e' Hf.
    destruct (setCache_file now c k v cat) as [H | H]; rewrite H in Hf.
    + apply (Hfile c' e' Hf).
    + injection Hf as <- <-. apply setCache_same_keys, Hmem.
Qed.

Lemma getFromCache_keeps_store {V : Type} now (c : Cache.state V) k :
  Cache.cacheDurations c = Cache.constructor_cacheDurations /\
  CacheAdmin.consistent c ->
  Cache.cacheDurations (snd (Cache.getFromCache now c k)) =
    Cache.constructor_cacheDurations /\
  CacheAdmin.consistent (snd (Cache.getFromCache now c k)).
Proof.
  intros [Htab [Hmem Hfile]].
  split; [rewrite getFromCache_durations; exact Htab|].
  destruct (getFromCache_cases now c k)
    as [(z & _ & _ & _ & ->) | [(z & _ & _ & _ & ->) | (_ & ->)]];
    cbn [snd]; try (split; assumption).
  split; [|exact Hfile].
  intros j. cbn. rewrite !lookup_delete_None. specialize (Hmem j). tauto.
Qed.

Lemma dispatch_keeps (t : Z) (r : request) (st st' : state) (a : activation) :
  dispatch t r st = (st', a) -> invariant st -> invariant st'.
Proof.
  intros Hd [Hrej Hst]. split.
  - apply dispatch_spec in Hd as (_ & _ & _ & _ & _ & _ & _ & Hdel & _).
    unfold rejections_wrapped. rewrite Hdel. exact Hrej.
  - unfold store_well_formed in *. unfold dispatch in Hd.
    destruct (negb _).
    + pose proof (getFromCache_keeps_store t (store (note_dispatched r t st))
                    (getCacheKey (endpoint r) (rq_params r)) Hst) as Hk.
      destruct (Cache.getFromCache _ _ _) as [[v|] c];
        injection Hd as <- _; exact Hk.
    + injection Hd as <- _. exact Hst.
Qed.

Lemma loop_head_keeps (t : Z) (st st' : state) (oa : option activation) :
  loop_head t st = (st', oa) -> invariant st -> invariant st'.
Proof.
  unfold loop_head. destruct (requestQueue st) as [|r q].
  - intros [= <- _] H. exact H.
  - destruct (_ <? requestDelay).
    + intros [= <- _] H. exact H.
    + destruct (dispatch t r (set_queue q st)) as [st1 a] eqn:Ed.
      intros [= <- _] H. apply (dispatch_keeps _ _ _ _ _ Ed). exact H.
Qed.

Lemma step_keeps (st st' : state) (te : Z * event) :
  step st te = Some st' -> invariant st -> invariant st'.
Proof.
  destruct te as [t ev]. unfold step.
  destruct (t <? clock st); [discriminate|].
  assert (Hset : forall (l : list activation) (s : state),
            invariant s -> invariant (set_loops l s)) by (intros l s H; exact H).
  destruct ev as [r | i | i o]; intros Hstep Hinv.
  - injection Hstep as <-. unfold makeRequest, processRequestQueue.
    destruct (_ || _); [exact Hinv|].
    destruct (loop_head t _) as [st1 [a|]] eqn:Eh;
      [apply Hset|]; apply (loop_head_keeps _ _ _ _ Eh); exact Hinv.
  - destruct (loops (set_clock t st) !! i) as [[r wake | r hit | r wake]|];
      try discriminate; cbn [resume] in Hstep;
      destruct (wake <=? t); try discriminate.
    + destruct (dispatch t r (set_clock t st)) as [st1 a] eqn:Ed.
      injection Hstep as <-. apply Hset.
      apply (dispatch_keeps _ _ _ _ _ Ed). exact Hinv.
    + destruct (loop_head t _) as [st1 oa] eqn:Eh.
      injection Hstep as <-. apply Hset.
      apply (loop_head_keeps _ _ _ _ Eh). exact Hinv.
  - destruct (loops (set_clock t st) !! i) as [[r wake | r hit | r wake]|];
      try discriminate. cbn [resume] in Hstep.
    destruct Hinv as [Hrej Hst].
    assert (Hfin : forall res st1,
              executeRequest_finish t r hit o (set_clock t st) = (res, st1) ->
              store_well_formed st1 /\ delivered st1 = delivered st /\
              match res with
              | inl e => is_rate_limited e = false /\ wrapped (Rejected e)
              | inr _ => True
              end).
    { intros res st1 Efin. pose proof Efin as Hspec.
      apply finish_spec in Hspec as (_ & _ & _ & _ & _ & _ & _ & Hdel & Hres).
      split; [|split; [exact Hdel|]].
      - unfold executeRequest_finish in Efin.
        destruct hit as [v|]; [injection Efin as _ <-; exact Hst|].
        destruct o as [ae|body]; injection Efin as _ <-; [exact Hst|].
        apply setCache_keeps_store. exact Hst.
      - destruct res as [e|v]; [|exact I].
        destruct Hres as (ae & _ & -> & _). split; [reflexivity|].
        exists ae. reflexivity. }
    destruct (executeRequest_finish t r hit o (set_clock t st))
      as [[e|v] st1] eqn:Efin;
      destruct (Hfin _ _ eq_refl) as (Hst1 & Hdel & Hres).
    + destruct Hres as [Hrl Hw]. rewrite Hrl in Hstep.
      destruct (loop_head t _) as [st2 oa] eqn:Eh.
      injection Hstep as <-. apply Hset.
      apply (loop_head_keeps _ _ _ _ Eh). split; [|exact Hst1].
      unfold rejections_wrapped. cbn [delivered note_delivered].
      rewrite Hdel. apply List.Forall_app. split; [exact Hrej|].
      constructor; [exact Hw | constructor].
    + destruct (loop_head t _) as [st2 oa] eqn:Eh.
      injection Hstep as <-. apply Hset.
      apply (loop_head_keeps _ _ _ _ Eh). split; [|exact Hst1].
      unfold rejections_wrapped. cbn [delivered note_delivered set_last].
      rewrite Hdel. apply List.Forall_app. split; [exact Hrej|].
      constructor; [exact I | constructor].
Qed.

Lemma run_keeps (evs : list (Z * event)) (st st' : state) :
  run st evs = Some st' ->
  rejections_wrapped st /\ store_well_formed st ->
  rejections_wrapped st' /\ store_well_formed st'.
Proof.
  revert st. induction evs as [|te rest IH]; intros st; cbn [run].
  - intros [= <-] H. exact H.
  - destruct (step st te) as [st1|] eqn:Es; [|discriminate].
    intros Hr H. apply (IH st1 Hr). apply (step_keeps _ _ _ Es). exact H.
Qed.

Lemma initial_keeps (t0 : Z) :
  rejections_wrapped (initial t0) /\ store_well_formed (initial t0).
Proof.
  split; [constructor|]. split; [reflexivity|].
  split; [intros k; cbn; rewrite !lookup_empty; tauto | cbn; discriminate].
Qed.

End ReachableFacts.

(** X21.  A caller never learns the status of a failure: in every run of
    the queue, each rejection delivered to a caller is the error built by
    [executeRequest], whose message starts with "Meta API request failed: "
    and which has no [response]. *)
Theorem rejections_carry_no_status
    (t0 : Z) (evs : list (Z * Throttle.event)) (st : Throttle.state)
    (c : nat) (e : Throttle.js_error) :
  Throttle.run (Throttle.initial t0) evs = Some st ->
  In (c, Throttle.Rejected e) (Throttle.delivered st) ->
  Throttle.response_status e = None /\
  Throttle.is_rate_limited e = false /\
  exists rest,
    Throttle.message e = ("Meta API request failed: " ++ rest)%string.
Proof.
  intros Hrun Hin.
  destruct (run_keeps _ _ _ Hrun (initial_keeps t0)) as [Hrej _].
  unfold Reachable.rejections_wrapped in Hrej.
  rewrite List.Forall_forall in Hrej. specialize (Hrej _ Hin).
  destruct Hrej as [ae ->]. split; [reflexivity|]. split; [reflexivity|].
  eexists. reflexivity.
Qed.

Lemma rejections_carry_no_status_witness :
  exists st e,
    Throttle.run (Throttle.initial 1000) QueueExamples.failing_run = Some st /\
    Throttle.delivered st = [(1%nat, Throttle.Rejected e)] /\
    Throttle.response_status e = None.
Proof.
  assert (Hobs : option_map Throttle.delivered
                   (Throttle.run (Throttle.initial 1000)
                      QueueExamples.failing_run)
                 = Some [(1%nat,
                          Throttle.Rejected
                            (Throttle.mkError
                               "Meta API request failed: An unknown error occurred"
                               None))])
    by (vm_compute; reflexivity).
  destruct (Throttle.run (Throttle.initial 1000) QueueExamples.failing_run)
    as [st|] eqn:E; [|discriminate].
  injection Hobs as Hdel.
  exists st, (Throttle.mkError
                "Meta API request failed: An unknown error occurred" None).
  split; [reflexivity|]. split; [exact Hdel|].
  apply (rejections_carry_no_status 1000 QueueExamples.failing_run st 1%nat
           _ E).
  rewrite Hdel. left. reflexivity.
Defined.

(** X22.  Whatever the callers and the upstream do, the cache of the
    service stays well formed: in every state that a run of the queue
    reaches, the duration table is the one the constructor left, and the
    value map and the expiry map have the same keys, in memory and in the
    snapshot. *)
Theorem reachable_store_is_well_formed
    (t0 : Z) (evs : list (Z * Throttle.event)) (st : Throttle.state) :
  Throttle.run (Throttle.initial t0) evs = Some st ->
  Reachable.store_well_formed st.
Proof.
  intros Hrun.
  exact (proj2 (run_keeps _ _ _ Hrun (initial_keeps t0))).
Qed.

Lemma reachable_store_is_well_formed_witness :
  exists st,
    Throttle.run (Throttle.initial 1000) QueueRules.abc_run = Some st /\
    Reachable.store_well_formed st.
Proof.
  destruct (Throttle.run (Throttle.initial 1000) QueueRules.abc_run)
    as [st|] eqn:E; [|vm_compute in E; discriminate].
  exists st. split; [reflexivity|].
  exact (reachable_store_is_well_formed 1000 QueueRules.abc_run st E).
Defined.
